(** * MacroMate content script: recorder, selector resolver and replay executor

    A shallow embedding of [content-script.js].  The script keeps two
    module-level variables ([isRecording], [recordedSteps]), installs three
    capturing listeners on the document, synthesises a CSS selector for the
    target of each event ([getSelector]) and replays a list of recorded steps
    ([runMacro], [executeStep]).

    The host page is modelled as a tree of elements; an element is referred
    to by the list of child indices leading to it.  The selector engine of the
    host ([document.querySelectorAll]) is not part of the script: it is an
    interface the definitions are parameterised over, with one concrete
    reference engine for the selector forms the script emits. *)

From Stdlib Require Import String Ascii List Bool Arith ZArith Lia.
From Stdlib Require Import DecimalString DecimalNat DecimalFacts Sorted.
Import ListNotations.
Local Open Scope string_scope.
Local Open Scope list_scope.
Local Open Scope nat_scope.

(** String concatenation, kept apart from list append. *)
Infix "+++" := String.append (right associativity, at level 60).

(* ===================================================================== *)
(** ** JavaScript values used by the script *)
(* ===================================================================== *)

Module Js.

(** Result of evaluating an expression that may throw. *)
Inductive completion (A : Type) : Type :=
| Normal (a : A)
| Throw (message : string).
Arguments Normal {A} a.
Arguments Throw {A} message.

(** Truthiness of a string: every string but the empty one. *)
Definition truthy (s : string) : bool := negb (String.eqb s "").

(** Truthiness of a possibly-undefined string property. *)
Definition truthy_opt (o : option string) : bool :=
  match o with Some s => truthy s | None => false end.

(** [String(x)] for a property that may be [undefined]. *)
Definition to_string (o : option string) : string :=
  match o with Some s => s | None => "undefined" end.

(** [a === b] on two possibly-undefined string properties. *)
Definition strict_eq (a b : option string) : bool :=
  match a, b with
  | Some x, Some y => String.eqb x y
  | None, None => true
  | _, _ => false
  end.

Definition is_upper (c : ascii) : bool :=
  let n := nat_of_ascii c in (65 <=? n) && (n <=? 90).

Definition is_lower (c : ascii) : bool :=
  let n := nat_of_ascii c in (97 <=? n) && (n <=? 122).

Definition is_digit (c : ascii) : bool :=
  let n := nat_of_ascii c in (48 <=? n) && (n <=? 57).

Definition lower_char (c : ascii) : ascii :=
  if is_upper c then ascii_of_nat (nat_of_ascii c + 32) else c.

(** Does the character [c] occur in [s]? *)
Fixpoint occurs (c : ascii) (s : string) : bool :=
  match s with
  | EmptyString => false
  | String a r => Ascii.eqb a c || occurs c r
  end.

(** [s.toLowerCase()] on the ASCII range. *)
Fixpoint toLowerCase (s : string) : string :=
  match s with
  | EmptyString => EmptyString
  | String c r => String (lower_char c) (toLowerCase r)
  end.

(** The characters matched by the regular expression class [\s]
    (ASCII range): tab, line feed, vertical tab, form feed, carriage
    return and space. *)
Definition is_space (c : ascii) : bool :=
  let n := nat_of_ascii c in
  (n =? 9) || (n =? 10) || (n =? 11) || (n =? 12) || (n =? 13) || (n =? 32).

(** [s.trimStart()]. *)
Fixpoint trimStart (s : string) : string :=
  match s with
  | EmptyString => EmptyString
  | String c r => if is_space c then trimStart r else s
  end.

Fixpoint rev_string (s acc : string) : string :=
  match s with
  | EmptyString => acc
  | String c r => rev_string r (String c acc)
  end.

(** [s.trim()]. *)
Definition trim (s : string) : string :=
  rev_string (trimStart (rev_string (trimStart s) "")) "".

(** [s.split(/\s+/)]: [cur] is the piece being read (reversed), [gap]
    tells whether the previous character belonged to a separator. *)
Fixpoint split_ws_from (s : string) (cur : string) (gap : bool) : list string :=
  match s with
  | EmptyString => [rev_string cur ""]
  | String c r =>
      if is_space c then
        if gap then split_ws_from r cur true
        else rev_string cur "" :: split_ws_from r "" true
      else split_ws_from r (String c cur) false
  end.

Definition split_ws (s : string) : list string := split_ws_from s "" false.

(** [list.join(sep)]. *)
Definition join (sep : string) (l : list string) : string := String.concat sep l.

(** Decimal rendering of a number inside a template literal. *)
Definition number_to_string (n : nat) : string :=
  NilZero.string_of_uint (Nat.to_uint n).

End Js.

Import Js.

(* ===================================================================== *)
(** ** The host document *)
(* ===================================================================== *)

Module Dom.

(** [element.className] is a string on HTML elements and an object
    (an animated string) on SVG elements. *)
Inductive ClassName : Type :=
| ClassString (s : string)
| ClassObject.

(** The properties of an element that the script reads.  [name], [type],
    [value], [checked] and [innerText] are [undefined] on elements that do
    not have them. *)
Record Props : Type := mkProps {
  tagName : string;
  id : string;
  name : option string;
  className : ClassName;
  type : option string;
  value : option string;
  checked : option bool;
  innerText : option string
}.

#[warnings="-register-all"]
Inductive Element : Type :=
| Node (props : Props) (children : list Element).

Definition props (e : Element) : Props := match e with Node p _ => p end.
Definition children (e : Element) : list Element := match e with Node _ cs => cs end.

(** A document is its root element. *)
Definition Document : Type := Element.

(** A reference to an element: the child indices leading to it, innermost
    first.  [[]] is the root, [i :: r] the [i]-th element child of [r]. *)
Definition Ref : Type := list nat.

Fixpoint ref_eqb (a b : Ref) : bool :=
  match a, b with
  | [], [] => true
  | i :: a', j :: b' => (i =? j) && ref_eqb a' b'
  | _, _ => false
  end.

(** Descend from [e] along child indices given outermost first. *)
Fixpoint descend (p : list nat) (e : Element) : option Element :=
  match p with
  | [] => Some e
  | i :: p' =>
      match nth_error (children e) i with
      | Some c => descend p' c
      | None => None
      end
  end.

Definition node_at (d : Document) (r : Ref) : option Element := descend (rev r) d.

Definition props_at (d : Document) (r : Ref) : option Props :=
  option_map props (node_at d r).

(** With this representation [r.parentElement] is the tail of [r] ([null]
    for the root) and [r.previousElementSibling] lowers the head of [r] by
    one ([null] when the head is [0]). *)

Fixpoint find_index {A} (f : A -> bool) (l : list A) (i : nat) : option nat :=
  match l with
  | [] => None
  | x :: l' => if f x then Some i else find_index f l' (S i)
  end.

Definition is_body_tag (e : Element) : bool :=
  String.eqb (tagName (props e)) "BODY" || String.eqb (tagName (props e)) "FRAMESET".

(** [document.body]: the first body (or frameset) child of the root, or
    [null]. *)
Definition body (d : Document) : option Ref :=
  match find_index is_body_tag (children d) 0 with
  | Some i => Some [i]
  | None => None
  end.

(** [current !== document.body]. *)
Definition is_body (d : Document) (r : Ref) : bool :=
  match body d with Some b => ref_eqb r b | None => false end.

(** Apply [f] to the [i]-th element of a list. *)
Fixpoint update_nth {A} (i : nat) (f : A -> A) (l : list A) : list A :=
  match l, i with
  | [], _ => []
  | x :: l', 0 => f x :: l'
  | x :: l', S j => x :: update_nth j f l'
  end.

Fixpoint update_along (f : Props -> Props) (p : list nat) (e : Element) : Element :=
  match p with
  | [] => Node (f (props e)) (children e)
  | i :: p' => Node (props e) (update_nth i (update_along f p') (children e))
  end.

Definition set_value (v : string) (p : Props) : Props :=
  mkProps (tagName p) (id p) (name p) (className p) (type p) (Some v)
          (checked p) (innerText p).

(** The document after the assignment [r.value = v]. *)
Definition with_value (d : Document) (r : Ref) (v : string) : Document :=
  update_along (set_value v) (rev r) d.

(** Every element of the tree below [e], in document order. *)
Fixpoint refs_under (e : Element) (here : Ref) : list Ref :=
  match e with
  | Node _ cs =>
      here ::
      (fix each (cs : list Element) (i : nat) : list Ref :=
         match cs with
         | [] => []
         | c :: cs' => refs_under c (i :: here) ++ each cs' (S i)
         end) cs 0
  end.

Definition all_refs (d : Document) : list Ref := refs_under d [].

(** Two elements that agree on every property but [value]. *)
Definition same_attrs (a b : Props) : Prop :=
  tagName a = tagName b /\ id a = id b /\ name a = name b /\
  className a = className b /\ type a = type b /\
  checked a = checked b /\ innerText a = innerText b.

Definition same_attrs_opt (a b : option Props) : Prop :=
  match a, b with
  | Some x, Some y => same_attrs x y
  | None, None => True
  | _, _ => False
  end.

(** Two documents of the same shape whose elements agree on every
    property but [value]. *)
Definition same_but_values (d d' : Document) : Prop :=
  forall r, same_attrs_opt (props_at d r) (props_at d' r).

(** The elements below a list of children, in document order. *)
Fixpoint refs_of_children (cs : list Element) (here : Ref) (i : nat) : list Ref :=
  match cs with
  | [] => []
  | c :: cs' => refs_under c (i :: here) ++ refs_of_children cs' here (S i)
  end.

End Dom.

Import Dom.

(* ===================================================================== *)
(** ** What the script asks of its host *)
(* ===================================================================== *)

(** The calls of the replay executor that are visible to the page or to the
    user.  [console.log] lines are diagnostics and are left out. *)
Inductive Action : Type :=
| ShowRunningIndicator
| RemoveRunningIndicator
| Query (selector : string)                 (* document.querySelector(selector) *)
| ScrollIntoView (element : Ref)
| Sleep (ms : Z)                            (* wait(ms): setTimeout is handed ms *)
| Highlight (element : Ref)                 (* highlightElementBriefly(element) *)
| Click (element : Ref)                     (* element.click() *)
| Focus (element : Ref)                     (* element.focus() *)
| SetValue (element : Ref) (v : string)     (* element.value = v *)
| DispatchEvent (element : Ref) (event : string)
| ConsoleWarn (message : string)
| ConsoleError (message : string)
| Alert (message : string).

(** The host: its selector engine, which may reject a selector with a
    [SyntaxError], and the way the page changes when the script acts on it
    (its own listeners, timers and the built-in behaviour of controls). *)
Class Host : Type := {
  querySelectorAll : Document -> string -> completion (list Ref);
  respond : Document -> Action -> Document
}.

(** [document.querySelector(s)]: the first match in document order, or
    [null]. *)
Definition querySelector `{Host} (d : Document) (s : string)
  : completion (option Ref) :=
  match querySelectorAll d s with
  | Normal l => Normal (hd_error l)
  | Throw m => Throw m
  end.

(* ===================================================================== *)
(** ** Selector resolver: [getSelector] *)
(* ===================================================================== *)

Module Resolver.

Definition dquote : string := String (ascii_of_nat 34) EmptyString.

(** [className.trim().split(/\s+/).filter(c => c)]. *)
Definition class_tokens (cn : string) : list string :=
  filter truthy (split_ws (trim cn)).

(** The inner loop of the path builder: starting at child [i] of [siblings]
    walk over the previous siblings and count those whose [tagName] is
    [tag]. *)
Fixpoint count_previous (siblings : list Element) (tag : string) (i nth : nat) : nat :=
  match i with
  | 0 => nth
  | S j =>
      match nth_error siblings j with
      | Some sibling =>
          count_previous siblings tag j
            (if String.eqb (tagName (props sibling)) tag then nth + 1 else nth)
      | None => nth
      end
  end.

(** The value of [nth] after the inner loop has run for [current]. *)
Definition nth_of (d : Document) (current : Ref) (tag : string) : nat :=
  match current with
  | [] => 1
  | i :: parent =>
      match node_at d parent with
      | Some p => count_previous (children p) tag i 1
      | None => 1
      end
  end.

(** The outer loop [while (current && current !== document.body)]; [path]
    is the array built so far by [unshift]. *)
Fixpoint build_path (d : Document) (current : Ref) (path : list string) {struct current}
  : list string :=
  if is_body d current then path
  else
    match props_at d current with
    | None => path
    | Some c =>
        let selector := toLowerCase (tagName c) in
        if truthy (id c) then (selector +++ "#" +++ id c) :: path
        else
          let nth := nth_of d current (tagName c) in
          let selector :=
            if 1 <? nth
            then selector +++ ":nth-of-type(" +++ number_to_string nth +++ ")"
            else selector in
          match current with
          | [] => selector :: path
          | _ :: parent => build_path d parent (selector :: path)
          end
    end.

(** The last part of [getSelector]: [path.join(' > ')]. *)
Definition positional_path (d : Document) (element : Ref) : string :=
  join " > " (build_path d element []).

(** The selector of the class branch: [tag + '.' + classes.join('.')]. *)
Definition compound_selector (e : Props) (classes : list string) : string :=
  toLowerCase (tagName e) +++ "." +++ join "." classes.

Definition getSelector `{Host} (d : Document) (element : Ref) : completion string :=
  match props_at d element with
  | None => Throw "TypeError"
  | Some e =>
      if truthy (id e) then Normal ("#" +++ id e)
      else if truthy_opt (name e)
      then Normal ("[name=" +++ dquote +++ to_string (name e) +++ dquote +++ "]")
      else
        match className e with
        | ClassString cn =>
            if truthy cn then
              let classes := class_tokens cn in
              if 0 <? length classes then
                let selector := compound_selector e classes in
                match querySelectorAll d selector with
                | Throw m => Throw m
                | Normal found =>
                    if length found =? 1 then Normal selector
                    else Normal (positional_path d element)
                end
              else Normal (positional_path d element)
            else Normal (positional_path d element)
        | ClassObject => Normal (positional_path d element)
        end
  end.

(** What the loop adds to the tag of an element without identifier. *)
Definition nth_suffix (nth : nat) : string :=
  if 1 <? nth then ":nth-of-type(" +++ number_to_string nth +++ ")" else "".

(** A string that is empty or begins with a colon. *)
Definition colon_led (u : string) : Prop := u = "" \/ exists u', u = String ":" u'.

(** The class tokens of an element; none when [className] is no string. *)
Definition class_list (e : Props) : list string :=
  match className e with
  | ClassString cn => class_tokens cn
  | ClassObject => []
  end.

(** A tag name that holds neither a colon nor a blank, as the names of
    the elements of an HTML document do. *)
Definition plain_tag_char (c : ascii) : bool :=
  negb (Ascii.eqb c ":") && negb (Ascii.eqb c " ").

Fixpoint plain_tag (s : string) : bool :=
  match s with
  | EmptyString => true
  | String c r => plain_tag_char c && plain_tag r
  end.

(** Two tag names that are the same or differ in more than the case of
    their letters. *)
Definition same_or_other_tag (t1 t2 : string) : Prop :=
  toLowerCase t1 = toLowerCase t2 -> t1 = t2.

(** The one question [getSelector] puts to the engine about element [r],
    the query for its compound selector, has the same answer in [d] and in
    [d'].  No question is put for an element with an identifier, with a
    name or without class tokens. *)
Definition same_matches `{Host} (d d' : Document) (r : Ref) : Prop :=
  forall e,
    props_at d r = Some e ->
    truthy (id e) = false -> truthy_opt (name e) = false ->
    class_list e <> [] ->
    querySelectorAll d (compound_selector e (class_list e))
    = querySelectorAll d' (compound_selector e (class_list e)).

(** The rule of the class branch for element [r] with properties [e]: the
    compound selector is the result when the engine finds exactly one match
    for it, and the positional path is the result when it finds another
    number of matches. *)
Definition class_rule `{Host} (d : Document) (r : Ref) (e : Props) : Prop :=
  forall found,
    class_list e <> [] ->
    querySelectorAll d (compound_selector e (class_list e)) = Normal found ->
    (length found = 1 ->
       getSelector d r = Normal (compound_selector e (class_list e))) /\
    (length found <> 1 ->
       getSelector d r = Normal (positional_path d r) /\
       getSelector d r <> Normal (compound_selector e (class_list e))).

(** The rule for a compound selector that the engine matches against both
    [r1] and [r2]: the resolver answers with the positional path of [r]
    and not with the compound selector. *)
Definition ambiguity_rule `{Host} (d : Document) (r : Ref) (e : Props) (r1 r2 : Ref)
  : Prop :=
  forall found,
    querySelectorAll d (compound_selector e (class_list e)) = Normal found ->
    In r1 found -> In r2 found ->
    getSelector d r = Normal (positional_path d r) /\
    getSelector d r <> Normal (compound_selector e (class_list e)).

End Resolver.

(* ===================================================================== *)
(** ** The positional path as the specification words it *)
(* ===================================================================== *)

(** Written after the description of the fallback, not after the loop: take
    the node and its ancestors, stop below the body, cut the chain at the
    first element that has an identifier, name each level and join the names
    from the outermost to the innermost. *)
Module PathSpec.

(** The node and its ancestors, innermost first. *)
Fixpoint self_and_ancestors (r : Ref) : list Ref :=
  r :: match r with
       | [] => []
       | _ :: parent => self_and_ancestors parent
       end.

(** The elements before the first one that satisfies [p]. *)
Fixpoint before_first {A} (p : A -> bool) (l : list A) : list A :=
  match l with
  | [] => []
  | x :: l' => if p x then [] else x :: before_first p l'
  end.

(** The elements up to and including the first one that satisfies [p]. *)
Fixpoint through_first {A} (p : A -> bool) (l : list A) : list A :=
  match l with
  | [] => []
  | x :: l' => if p x then [x] else x :: through_first p l'
  end.

Definition has_identifier (d : Document) (r : Ref) : bool :=
  match props_at d r with
  | Some e => truthy (id e)
  | None => false
  end.

(** The 1-based position of [r] among the siblings that share its tag
    name. *)
Definition ordinal (d : Document) (r : Ref) : nat :=
  match r, props_at d r with
  | i :: parent, Some e =>
      match node_at d parent with
      | Some p =>
          1 + length (filter (fun s => String.eqb (tagName (props s)) (tagName e))
                             (firstn i (children p)))
      | None => 1
      end
  | _, _ => 1
  end.

(** The segment of one level: anchored at the identifier if there is one,
    otherwise the tag with its ordinal when that is greater than 1. *)
Definition segment (d : Document) (r : Ref) : string :=
  match props_at d r with
  | Some e =>
      let tag := toLowerCase (tagName e) in
      if truthy (id e) then tag +++ "#" +++ id e
      else if 1 <? ordinal d r
      then tag +++ ":nth-of-type(" +++ number_to_string (ordinal d r) +++ ")"
      else tag
  | None => ""
  end.

(** The levels that are named, innermost first. *)
Definition levels (d : Document) (r : Ref) : list Ref :=
  through_first (has_identifier d) (before_first (is_body d) (self_and_ancestors r)).

(** The descendant combinator of CSS is white space, the child combinator
    is [>]. *)
Definition descendant_combinator : string := " ".
Definition child_combinator : string := " > ".

Definition described_path (separator : string) (d : Document) (r : Ref) : string :=
  join separator (rev (map (segment d) (levels d r))).

End PathSpec.

Import Resolver.

(* ===================================================================== *)
(** ** Recorded steps *)
(* ===================================================================== *)

Module Step.

(** A step is a plain object; a field that the object literal does not set
    is [undefined]. *)
Record t : Type := mk {
  type : string;
  selector : option string;
  tagName : option string;
  text : option string;
  secret : option bool;
  checked : option bool;
  value : option string;
  timestamp : option Z;
  timeout : option Z
}.

(** [{ type: 'click', selector, tagName, text, timestamp }] *)
Definition click (selector tagName text : string) (now : Z) : t :=
  mk "click" (Some selector) (Some tagName) (Some text) None None None (Some now) None.

(** [{ type: 'type', selector, text, secret, timestamp }] *)
Definition typed (selector : string) (text : option string) (secret : bool) (now : Z) : t :=
  mk "type" (Some selector) None text (Some secret) None None (Some now) None.

(** [{ type: 'select', selector, value, timestamp }] *)
Definition select (selector : string) (value : option string) (now : Z) : t :=
  mk "select" (Some selector) None None None None value (Some now) None.

(** [{ type: 'click', selector, checked, timestamp }] *)
Definition toggle (selector : string) (checked : option bool) (now : Z) : t :=
  mk "click" (Some selector) None None None checked None (Some now) None.

(** [step.type === 'type' && step.selector === selector] *)
Definition is_type_on (selector : string) (step : t) : bool :=
  String.eqb (type step) "type" && strict_eq (Step.selector step) (Some selector).

End Step.

(* ===================================================================== *)
(** ** Event capture recorder *)
(* ===================================================================== *)

Module Recorder.

(** Which of the three capturing listeners are installed on the
    document. *)
Record Listeners : Type := mkListeners {
  click : bool;
  input : bool;
  change : bool
}.

(** The module-level variables of the script, the listeners it has
    installed and the number of indicator elements it has put into the
    page. *)
Record State : Type := mkState {
  isRecording : bool;
  recordedSteps : list Step.t;
  listeners : Listeners;
  indicators : nat
}.

(** The state when the script has just been loaded. *)
Definition initial : State :=
  mkState false [] (mkListeners false false false) 0.

(** An event as a handler sees it: the document at that moment, the
    event's target and the reading of [Date.now()]. *)
Record Event : Type := mkEvent {
  document : Document;
  target : Ref;
  now : Z
}.

Definition push (st : State) (step : Step.t) : State :=
  mkState (isRecording st) (recordedSteps st ++ [step]) (listeners st) (indicators st).

Definition startRecording (st : State) : State :=
  mkState true [] (mkListeners true true true) (S (indicators st)).

(** [stopRecording()] gives the returned array and the state it leaves. *)
Definition stopRecording (st : State) : list Step.t * State :=
  (recordedSteps st,
   mkState false (recordedSteps st) (mkListeners false false false)
           (Nat.pred (indicators st))).

Definition secret_marker : string := "{{SECRET}}".

(** [target.innerText?.substring(0, 50) || ''] *)
Definition click_text (t : Props) : string :=
  match innerText t with
  | Some s => let cut := substring 0 50 s in if truthy cut then cut else ""
  | None => ""
  end.

(** The events the document delivers. *)
Inductive Kind : Type := ClickEvent | InputEvent | ChangeEvent.

(** [target.type === 'password'] *)
Definition isSecret (t : Props) : bool := strict_eq (type t) (Some "password").

(** [isSecret ? '{{SECRET}}' : value] *)
Definition recorded_text (t : Props) : option string :=
  if isSecret t then Some secret_marker else value t.

(** [target.type === 'checkbox' || target.type === 'radio'] *)
Definition is_toggle (t : Props) : bool :=
  strict_eq (type t) (Some "checkbox") || strict_eq (type t) (Some "radio").

(** A password field: an element whose [type] is [password] and which is
    no [select] control (the [type] of a [select] control is [select-one]
    or [select-multiple]). *)
Definition holds_secret (t : Props) : bool :=
  isSecret t && negb (String.eqb (toLowerCase (tagName t)) "select").

(** Two elements that agree on every property, but for the value when
    they are password fields. *)
Definition same_but_secret (a b : option Props) : Prop :=
  match a, b with
  | Some x, Some y => same_attrs x y /\ (holds_secret x = false -> value x = value y)
  | None, None => True
  | _, _ => False
  end.

(** Two documents of the same shape that differ at most in the values
    their password fields hold. *)
Definition same_but_secrets (d d' : Document) : Prop :=
  forall r, same_but_secret (props_at d r) (props_at d' r).

Section Handlers.
Context `{Host}.

(** An exception inside a handler (a target that is no element, a
    selector the engine rejects) leaves the variables as they were. *)

Definition handleClick (st : State) (event : Event) : State :=
  if negb (isRecording st) then st
  else
    match props_at (document event) (target event) with
    | None => st
    | Some t =>
        if String.eqb (id t) "macromate-indicator" then st
        else
          match getSelector (document event) (target event) with
          | Throw _ => st
          | Normal selector =>
              let tagName := toLowerCase (tagName t) in
              push st (Step.click selector tagName (click_text t) (now event))
          end
    end.

Definition handleInput (st : State) (event : Event) : State :=
  if negb (isRecording st) then st
  else
    match props_at (document event) (target event) with
    | None => st
    | Some t =>
        match getSelector (document event) (target event) with
        | Throw _ => st
        | Normal selector =>
            let kept :=
              filter (fun step => negb (Step.is_type_on selector step))
                     (recordedSteps st) in
            push (mkState (isRecording st) kept (listeners st) (indicators st))
                 (Step.typed selector (recorded_text t) (isSecret t) (now event))
        end
    end.

Definition handleChange (st : State) (event : Event) : State :=
  if negb (isRecording st) then st
  else
    match props_at (document event) (target event) with
    | None => st
    | Some t =>
        match getSelector (document event) (target event) with
        | Throw _ => st
        | Normal selector =>
            let tagName := toLowerCase (tagName t) in
            if String.eqb tagName "select" then
              push st (Step.select selector (value t) (now event))
            else if is_toggle t then
              push st (Step.toggle selector (checked t) (now event))
            else st
        end
    end.

(** Delivery of an event: the handler runs if its listener is
    installed. *)
Definition deliver (st : State) (k : Kind) (event : Event) : State :=
  match k with
  | ClickEvent => if click (listeners st) then handleClick st event else st
  | InputEvent => if input (listeners st) then handleInput st event else st
  | ChangeEvent => if change (listeners st) then handleChange st event else st
  end.

(** The event's target is an element and [getSelector] returns [sel]
    for it. *)
Definition resolves_to (sel : string) (ev : Event) : Prop :=
  exists t, props_at (document ev) (target ev) = Some t /\
            getSelector (document ev) (target ev) = Normal sel.

(** Two deliveries of an event of the same kind, on the same target and
    at the same time, to documents that differ at most in the values of
    their password fields, the engine answering the query for the target's
    compound selector, if the resolver makes it, alike in both. *)
Inductive same_up_to_secrets : Kind * Event -> Kind * Event -> Prop :=
| up_to_secrets (k : Kind) (d d' : Document) (r : Ref) (now : Z) :
    same_but_secrets d d' ->
    same_matches d d' r ->
    same_up_to_secrets (k, mkEvent d r now) (k, mkEvent d' r now).

(** A run of the recorder over a sequence of delivered events. *)
Definition run (st : State) (events : list (Kind * Event)) : State :=
  fold_left (fun st ke => deliver st (fst ke) (snd ke)) events st.

End Handlers.

End Recorder.

(* ===================================================================== *)
(** ** Macro replay executor *)
(* ===================================================================== *)

Module Replay.

(** The page and the actions performed on it so far, oldest first. *)
Record World : Type := mkWorld {
  page : Document;
  trace : list Action
}.

(** A computation of the executor: it may throw, and in either case leaves
    a world behind. *)
Definition M (A : Type) : Type := World -> completion A * World.

Definition ret {A} (a : A) : M A := fun w => (Normal a, w).

Definition bind {A B} (m : M A) (k : A -> M B) : M B :=
  fun w =>
    match m w with
    | (Normal a, w') => k a w'
    | (Throw e, w') => (Throw e, w')
    end.

Definition throw {A} (message : string) : M A := fun w => (Throw message, w).

Notation "x <- m ;; k" := (bind m (fun x => k))
  (at level 61, m at next level, right associativity).
Notation "m ;; k" := (bind m (fun _ => k))
  (at level 61, right associativity).

Section Executor.
Context `{Host}.

(** Perform one action: it is appended to the trace and the page
    responds to it.  The calls the executor makes on an element it has
    found are taken to return; a host object on which one of them throws
    (an element without a [click] method, a file input that is assigned a
    value) is outside this model. *)
Definition perform (a : Action) : M unit :=
  fun w => (Normal tt, mkWorld (respond (page w) a) (trace w ++ [a])).

(** [document.querySelector(selector)] on the current page; a query
    reads the page and leaves it as it is. *)
Definition lookup (selector : string) : M (option Ref) :=
  fun w =>
    let w' := mkWorld (page w) (trace w ++ [Query selector]) in
    match querySelector (page w) selector with
    | Normal found => (Normal found, w')
    | Throw e => (Throw e, w')
    end.

(** [wait(ms)] *)
Definition wait (ms : Z) : M unit := perform (Sleep ms).

(** [step.timeout || 1000] *)
Definition timeout_or_default (step : Step.t) : Z :=
  match Step.timeout step with
  | Some ms => if (ms =? 0)%Z then 1000%Z else ms
  | None => 1000%Z
  end.

Definition executeStep (step : Step.t) : M unit :=
  let selector := to_string (Step.selector step) in
  found <- lookup selector ;;
  match found with
  | None => throw ("Element not found: " +++ selector)
  | Some element =>
      perform (ScrollIntoView element) ;;
      wait 200 ;;
      perform (Highlight element) ;;
      if String.eqb (Step.type step) "click" then
        perform (Click element)
      else if String.eqb (Step.type step) "type" then
        perform (Focus element) ;;
        perform (SetValue element (to_string (Step.text step))) ;;
        perform (DispatchEvent element "input") ;;
        perform (DispatchEvent element "change")
      else if String.eqb (Step.type step) "select" then
        perform (SetValue element (to_string (Step.value step))) ;;
        perform (DispatchEvent element "change")
      else if String.eqb (Step.type step) "wait" then
        wait (timeout_or_default step)
      else
        perform (ConsoleWarn ("Unknown step type: " +++ Step.type step))
  end.

(** The body of the [for] loop of [runMacro] from index [i] on; [steps]
    is what remains of the array.  The [catch] branch ends the loop. *)
Fixpoint run_from (steps : list Step.t) (i : nat) : M unit :=
  match steps with
  | [] => ret tt
  | step :: rest =>
      fun w =>
        match (executeStep step ;; wait 500) w with
        | (Normal _, w') => run_from rest (S i) w'
        | (Throw message, w') =>
            (perform (ConsoleError message) ;;
             perform (Alert ("Error at step " +++ number_to_string (i + 1)
                               +++ ": " +++ message))) w'
        end
  end.

Definition runMacro (steps : list Step.t) : M unit :=
  perform ShowRunningIndicator ;;
  run_from steps 0 ;;
  perform RemoveRunningIndicator.

(** Running from a fresh world on document [d]. *)
Definition replay (d : Document) (steps : list Step.t) : World :=
  snd (runMacro steps (mkWorld d [])).

(** One turn of the loop body: [executeStep] followed by the pause
    between steps. *)
Definition turn (step : Step.t) : M unit := executeStep step ;; wait 500.

(** The world after each of [steps] has been executed in order and none
    has thrown; [None] if one of them throws. *)
Fixpoint performed (steps : list Step.t) (w : World) : option World :=
  match steps with
  | [] => Some w
  | step :: rest =>
      match turn step w with
      | (Normal _, w') => performed rest w'
      | (Throw _, _) => None
      end
  end.

End Executor.

End Replay.

(* ===================================================================== *)
(** ** A reference host *)
(* ===================================================================== *)

(** A selector engine for the forms of selector that [getSelector] emits:
    chains of compound selectors joined by [" > "], a compound being an
    optional tag followed by [#id], [.class], [[name="v"]] and
    [:nth-of-type(n)] parts.  Any other string is rejected, as an engine
    rejects a string that is no selector.  The page of the reference host has
    no listeners of its own: it changes only when a value is assigned. *)
Module Reference.

Inductive Simple : Type :=
| STag (tag : string)
| SId (ident : string)
| SClass (token : string)
| SName (v : string)
| SNth (n : nat).

Definition Compound : Type := list Simple.

Definition is_ident_char (c : ascii) : bool :=
  is_upper c || is_lower c || is_digit c
  || (nat_of_ascii c =? 45) || (nat_of_ascii c =? 95).

(** The longest prefix of characters satisfying [f], and the rest. *)
Fixpoint span (f : ascii -> bool) (s : string) : string * string :=
  match s with
  | EmptyString => (EmptyString, EmptyString)
  | String c r =>
      if f c then let (a, b) := span f r in (String c a, b)
      else (EmptyString, s)
  end.

Fixpoint strip_prefix (pre s : string) : option string :=
  match pre, s with
  | EmptyString, _ => Some s
  | String a pre', String b s' =>
      if Ascii.eqb a b then strip_prefix pre' s' else None
  | String _ _, EmptyString => None
  end.

Fixpoint decimal_value (s : string) (acc : nat) : nat :=
  match s with
  | EmptyString => acc
  | String c r => decimal_value r (10 * acc + (nat_of_ascii c - 48))
  end.

Definition not_dquote (c : ascii) : bool := negb (nat_of_ascii c =? 34).

(** The parts of a compound after its tag; stops in front of a
    combinator or at the end of the string. *)
Fixpoint parse_parts (fuel : nat) (s : string) (acc : Compound)
  : option (Compound * string) :=
  match fuel with
  | 0 => None
  | S fuel' =>
      match s with
      | EmptyString => Some (rev acc, s)
      | String c r =>
          if Ascii.eqb c " " then Some (rev acc, s)
          else if Ascii.eqb c "#" then
            let (ident, rest) := span is_ident_char r in
            if truthy ident then parse_parts fuel' rest (SId ident :: acc) else None
          else if Ascii.eqb c "." then
            let (token, rest) := span is_ident_char r in
            if truthy token then parse_parts fuel' rest (SClass token :: acc) else None
          else if Ascii.eqb c "[" then
            match strip_prefix ("name=" +++ dquote) r with
            | Some r1 =>
                let (v, r2) := span not_dquote r1 in
                match strip_prefix (dquote +++ "]") r2 with
                | Some rest => parse_parts fuel' rest (SName v :: acc)
                | None => None
                end
            | None => None
            end
          else if Ascii.eqb c ":" then
            match strip_prefix "nth-of-type(" r with
            | Some r1 =>
                let (digits, r2) := span is_digit r1 in
                match strip_prefix ")" r2 with
                | Some rest =>
                    if truthy digits
                    then parse_parts fuel' rest (SNth (decimal_value digits 0) :: acc)
                    else None
                | None => None
                end
            | None => None
            end
          else None
      end
  end.

Definition parse_compound (fuel : nat) (s : string) : option (Compound * string) :=
  let (tag, rest) := span is_ident_char s in
  match parse_parts fuel rest (if truthy tag then [STag tag] else []) with
  | Some ([], _) => None
  | other => other
  end.

(** A chain of compounds, outermost first. *)
Fixpoint parse_chain (fuel : nat) (s : string) : option (list Compound) :=
  match fuel with
  | 0 => None
  | S fuel' =>
      match parse_compound fuel' s with
      | Some (c, EmptyString) => Some [c]
      | Some (c, rest) =>
          match strip_prefix " > " rest with
          | Some rest' =>
              match parse_chain fuel' rest' with
              | Some cs => Some (c :: cs)
              | None => None
              end
          | None => None
          end
      | None => None
      end
  end.

Definition parse (s : string) : option (list Compound) :=
  parse_chain (2 + String.length s) s.

Definition has_class (e : Props) (token : string) : bool :=
  match className e with
  | ClassString cn => existsb (String.eqb token) (class_tokens cn)
  | ClassObject => false
  end.

Definition matches_simple (d : Document) (r : Ref) (e : Props) (s : Simple) : bool :=
  match s with
  | STag tag => String.eqb (toLowerCase (tagName e)) (toLowerCase tag)
  | SId ident => String.eqb (id e) ident
  | SClass token => has_class e token
  | SName v => strict_eq (name e) (Some v)
  | SNth n => nth_of d r (tagName e) =? n
  end.

(** Does [r] match the chain [chain], given innermost compound first?
    Each further compound must match the parent of the element before. *)
Fixpoint matches_chain (d : Document) (r : Ref) (chain : list Compound) {struct chain}
  : bool :=
  match chain with
  | [] => true
  | c :: outer =>
      match props_at d r with
      | None => false
      | Some e =>
          forallb (matches_simple d r e) c &&
          match outer, r with
          | [], _ => true
          | _ :: _, [] => false
          | _ :: _, _ :: parent => matches_chain d parent outer
          end
      end
  end.

Definition select_all (d : Document) (s : string) : completion (list Ref) :=
  match parse s with
  | Some chain =>
      Normal (filter (fun r => matches_chain d r (rev chain)) (all_refs d))
  | None => Throw "SyntaxError"
  end.

Definition quiet_page (d : Document) (a : Action) : Document :=
  match a with
  | SetValue r v => with_value d r v
  | _ => d
  end.

Definition host : Host := {|
  querySelectorAll := select_all;
  respond := quiet_page
|}.

End Reference.

(* ===================================================================== *)
(** ** A sample page *)
(* ===================================================================== *)

(** A small form used to run the definitions on concrete inputs:

<<
  html
    head
    body
      button#go                      "Go"
      input[name=qty]   type=text
      input#pw          type=password
      input#agree       type=checkbox
      ul
        li.item                      "one"
        li.item                      "two"
      select#size
>> *)
Module Sample.

Definition element (tag ident : string) (name : option string) (cls : string)
           (type value : option string) (checked : option bool)
           (text : string) (kids : list Element) : Element :=
  Node (mkProps tag ident name (ClassString cls) type value checked (Some text)) kids.

Definition plain (tag cls text : string) (kids : list Element) : Element :=
  element tag "" None cls None None None text kids.

Definition page : Document :=
  plain "HTML" "" "" [
    plain "HEAD" "" "" [];
    plain "BODY" "" "" [
      element "BUTTON" "go" (Some "") "" (Some "submit") (Some "") None "Go" [];
      element "INPUT" "" (Some "qty") "" (Some "text") (Some "") (Some false) "" [];
      element "INPUT" "pw" (Some "") "" (Some "password") (Some "") (Some false) "" [];
      element "INPUT" "agree" (Some "") "" (Some "checkbox") (Some "on") (Some true) "" [];
      plain "UL" "" "onetwo" [
        plain "LI" "item" "one" [];
        plain "LI" "item" "two" []
      ];
      element "SELECT" "size" (Some "") "" (Some "select-one") (Some "m") None "" []
    ]
  ].

Definition go : Ref := [0; 1].
Definition qty : Ref := [1; 1].
Definition pw : Ref := [2; 1].
Definition agree : Ref := [3; 1].
Definition first_item : Ref := [0; 4; 1].
Definition second_item : Ref := [1; 4; 1].
Definition the_body : Ref := [1].

(** The state right after [startRecording()] on a freshly loaded script. *)
Definition recording : Recorder.State := Recorder.startRecording Recorder.initial.

Section Events.
Import Recorder.
#[local] Existing Instance Reference.host.

Definition qty_selector : string := "[name=" +++ dquote +++ "qty" +++ dquote +++ "]".

(** An input event on the quantity field when it holds [v]. *)
Definition qty_input (v : string) (now : Z) : Event :=
  mkEvent (with_value page qty v) qty now.

(** An input event on the password field when it holds [v]. *)
Definition pw_input (v : string) (now : Z) : Event :=
  mkEvent (with_value page pw v) pw now.

Definition agree_event (now : Z) : Event := mkEvent page agree now.

Definition agree_props : Props :=
  mkProps "INPUT" "agree" (Some "") (ClassString "") (Some "checkbox") (Some "on")
          (Some true) (Some "").

Definition qty_props (v : string) : Props :=
  mkProps "INPUT" "" (Some "qty") (ClassString "") (Some "text") (Some v)
          (Some false) (Some "").

(** The page after [v] has been typed into the password field, and after
    the quantity has been typed as well. *)
Definition with_password (v : string) : Document := with_value page pw v.

Definition with_password_and_quantity (v : string) : Document :=
  with_value (with_password v) qty "4".

(** A recording in which [v] is typed into the password field: the input
    event, a click on the button, an input event on the quantity field, a
    click on the first list item and a change event on the check box. *)
Definition secret_run (v : string) : list (Kind * Event) :=
  [(InputEvent, mkEvent (with_password v) pw 1);
   (ClickEvent, mkEvent (with_password v) go 2);
   (InputEvent, mkEvent (with_password_and_quantity v) qty 3);
   (ClickEvent, mkEvent (with_password_and_quantity v) first_item 4);
   (ChangeEvent, mkEvent (with_password_and_quantity v) agree 5)].

(** A buffer with a type step for the quantity field between two clicks. *)
Definition mixed_buffer : State :=
  handleClick
    (handleInput (handleClick recording (mkEvent page go 1))
                 (qty_input "4" 2))
    (agree_event 3).

End Events.

Definition item_props (text : string) : Props :=
mkProps "LI" "" None (ClassString "item") None None None (Some text).

Definition body_props : Props :=
mkProps "BODY" "" None (ClassString "") None None None (Some "").

(** A [wait] step as a controller would write it: [{ type: 'wait', timeout }]. *)
Definition wait_step (ms : Z) : Step.t :=
Step.mk "wait" None None None None None None None (Some ms).

(** Three clicks, the second on an element the page does not have. *)
Definition broken_macro : list Step.t :=
[Step.click "#go" "button" "Go" 1;
 Step.click "#missing" "button" "" 2;
 Step.click "#agree" "input" "" 3].

(** Two clicks, both on elements the page does not have. *)
Definition two_missing : list Step.t :=
[Step.click "#nope" "button" "" 1; Step.click "#gone" "button" "" 2].

End Sample.

(* ===================================================================== *)
(** ** The highlight *)
(* ===================================================================== *)

(** [highlightElementBriefly(element)] reads two properties of
    [element.style], overwrites them and arms a timer that writes the values
    it has read back. *)
Module Highlight.

Record Style : Type := mkStyle {
  outline : string;
  backgroundColor : string
}.

Definition highlighted : Style :=
  mkStyle "3px solid #6b46c1" "rgba(107, 70, 193, 0.1)".

(** An armed timer: its delay and what its callback does to the style the
    element has when it fires. *)
Record Timer : Type := mkTimer {
  delay : Z;
  callback : Style -> Style
}.

(** The style the call leaves and the timer it arms. *)
Definition highlightElementBriefly (style : Style) : Style * Timer :=
  let originalOutline := outline style in
  let originalBackground := backgroundColor style in
  (mkStyle "3px solid #6b46c1" "rgba(107, 70, 193, 0.1)",
   mkTimer 1000 (fun _ => mkStyle originalOutline originalBackground)).

End Highlight.

(* ===================================================================== *)
(** ** A page while it is being recorded *)
(* ===================================================================== *)

(** A page with the recording indicator that [showRecordingIndicator] has
    appended to the body, and a button whose class is no valid part of a
    selector:

<<
  html
    head
    body
      button#go                          "Go"
      button.hover:bold                  "Save"
      div#macromate-indicator
        div                              "Recording..."
          span
        style
>> *)
Module Marked.

Definition page : Document :=
  Sample.plain "HTML" "" "" [
    Sample.plain "HEAD" "" "" [];
    Sample.plain "BODY" "" "" [
      Sample.element "BUTTON" "go" (Some "") "" (Some "submit") (Some "") None "Go" [];
      Sample.element "BUTTON" "" (Some "") "hover:bold" (Some "submit") (Some "") None
                     "Save" [];
      Sample.element "DIV" "macromate-indicator" None "" None None None "Recording..." [
        Sample.plain "DIV" "" "Recording..." [Sample.plain "SPAN" "" "" []];
        Sample.plain "STYLE" "" "" []
      ]
    ]
  ].

Definition save : Ref := [1; 1].
Definition indicator : Ref := [2; 1].
Definition badge : Ref := [0; 2; 1].

Definition save_props : Props :=
  mkProps "BUTTON" "" (Some "") (ClassString "hover:bold") (Some "submit") (Some "")
          None (Some "Save").

Definition indicator_props : Props :=
  mkProps "DIV" "macromate-indicator" None (ClassString "") None None None
          (Some "Recording...").

Definition badge_props : Props :=
  mkProps "DIV" "" None (ClassString "") None None None (Some "Recording...").

End Marked.

(** A toolbar with two buttons that carry the same utility class, a class
    whose name is no valid part of a selector as long as its colon is not
    escaped:

<<
  html
    head
    body
      div
        button.hover:bold                "Save"
        button.hover:bold                "Cancel"
>> *)
Module Twins.

Definition page : Document :=
  Sample.plain "HTML" "" "" [
    Sample.plain "HEAD" "" "" [];
    Sample.plain "BODY" "" "" [
      Sample.plain "DIV" "" "SaveCancel" [
        Sample.element "BUTTON" "" (Some "") "hover:bold" (Some "submit") (Some "") None
                       "Save" [];
        Sample.element "BUTTON" "" (Some "") "hover:bold" (Some "submit") (Some "") None
                       "Cancel" []
      ]
    ]
  ].

Definition toolbar : Ref := [0; 1].
Definition save : Ref := 0 :: toolbar.
Definition cancel : Ref := 1 :: toolbar.

Definition button_props (text : string) : Props :=
  mkProps "BUTTON" "" (Some "") (ClassString "hover:bold") (Some "submit") (Some "")
          None (Some text).

End Twins.

(** Further pieces of the sample page and of macros for it. *)
Module Fixtures.



(** The world in which a replay of the sample page begins. *)
Definition fresh : Replay.World := Replay.mkWorld Sample.page [].

Definition click_go : Step.t := Step.click "#go" "button" "Go" 1.
Definition click_missing : Step.t := Step.click "#missing" "button" "" 2.

End Fixtures.

(* ===================================================================== *)
(** ** Vocabulary of the further properties *)
(* ===================================================================== *)

Module Observed.

(** The selectors of the type steps of a buffer, in order. *)
Definition type_targets (buffer : list Step.t) : list (option string) :=
  map Step.selector (filter (fun step => String.eqb (Step.type step) "type") buffer).

(** The timestamp of a step, [0] for a step without one. *)
Definition stamp (step : Step.t) : Z :=
  match Step.timestamp step with Some z => z | None => 0%Z end.

(** A step as the recorder writes them: a click, type or select step with
    a selector and a timestamp and without a timeout. *)
Definition recorder_made (step : Step.t) : bool :=
  (String.eqb (Step.type step) "click" || String.eqb (Step.type step) "type"
   || String.eqb (Step.type step) "select")
  && match Step.selector step with Some _ => true | None => false end
  && match Step.timestamp step with Some _ => true | None => false end
  && match Step.timeout step with Some _ => false | None => true end.

(** The text of a step is at most [n] characters long. *)
Definition text_within (n : nat) (step : Step.t) : Prop :=
  match Step.text step with
  | Some text => String.length text <= n
  | None => True
  end.

(** The selectors looked up in a trace, in order. *)
Fixpoint queried (trace : list Action) : list string :=
  match trace with
  | [] => []
  | Query selector :: rest => selector :: queried rest
  | _ :: rest => queried rest
  end.

(** What a step does to an element it has found: everything but lookups,
    error reports and the indicator. *)
Definition is_effect (a : Action) : bool :=
  match a with
  | ScrollIntoView _ | Sleep _ | Highlight _ | Click _ | Focus _
  | SetValue _ _ | DispatchEvent _ _ | ConsoleWarn _ => true
  | _ => false
  end.

(** An action of the loop that is no error report. *)
Definition is_step_action (a : Action) : bool :=
  match a with
  | Query _ => true
  | _ => is_effect a
  end.


(** [step.type] is one of the four kinds the [switch] knows. *)
Definition known_kind (step : Step.t) : bool :=
  String.eqb (Step.type step) "click" || String.eqb (Step.type step) "type"
  || String.eqb (Step.type step) "select" || String.eqb (Step.type step) "wait".

End Observed.

(* ===================================================================== *)
(** * Properties of the recorder *)
(* ===================================================================== *)

Import Recorder.

Section ListFacts.
Context {A : Type}.

Lemma filter_out_then_in (p : A -> bool) (l : list A) :
  filter p (filter (fun x => negb (p x)) l) = [].
Proof.
  induction l as [| x l IH]; simpl; [reflexivity |].
  destruct (p x) eqn:E; simpl; [exact IH |].
  rewrite E. exact IH.
Qed.

Lemma last_snoc (l : list A) (x d : A) : last (l ++ [x]) d = x.
Proof.
  induction l as [| y l IH]; simpl; [reflexivity |].
  destruct (l ++ [x]) eqn:E; [destruct l; discriminate | exact IH].
Qed.

End ListFacts.

Section RecorderFacts.
Context {H : Host}.

(** What [handleInput] does once the target and its selector are known. *)
Lemma handleInput_resolved st ev t sel :
  isRecording st = true ->
  props_at (document ev) (target ev) = Some t ->
  getSelector (document ev) (target ev) = Normal sel ->
  handleInput st ev =
    mkState true
      (filter (fun step => negb (Step.is_type_on sel step)) (recordedSteps st)
         ++ [Step.typed sel (recorded_text t) (isSecret t) (now ev)])
      (listeners st) (indicators st).
Proof.
  intros Hrec Ht Hsel. unfold handleInput, push.
  rewrite Hrec, Ht, Hsel. reflexivity.
Qed.

Lemma handleClick_resolved st ev t sel :
  isRecording st = true ->
  props_at (document ev) (target ev) = Some t ->
  id t <> "macromate-indicator" ->
  getSelector (document ev) (target ev) = Normal sel ->
  handleClick st ev =
    push st (Step.click sel (toLowerCase (tagName t)) (click_text t) (now ev)).
Proof.
  intros Hrec Ht Hid Hsel. unfold handleClick.
  rewrite Hrec, Ht, Hsel. simpl.
  destruct (String.eqb_spec (id t) "macromate-indicator"); [contradiction | reflexivity].
Qed.

Lemma handleChange_toggle st ev t sel :
  isRecording st = true ->
  props_at (document ev) (target ev) = Some t ->
  toLowerCase (tagName t) <> "select" ->
  is_toggle t = true ->
  getSelector (document ev) (target ev) = Normal sel ->
  handleChange st ev = push st (Step.toggle sel (checked t) (now ev)).
Proof.
  intros Hrec Ht Htag Htog Hsel. unfold handleChange.
  rewrite Hrec, Ht, Hsel, Htog. simpl.
  destruct (String.eqb_spec (toLowerCase (tagName t)) "select"); [contradiction | reflexivity].
Qed.

Lemma handleInput_keeps_recording st ev :
  isRecording (handleInput st ev) = isRecording st.
Proof.
  unfold handleInput.
  destruct (isRecording st) eqn:E; simpl; [| exact E].
  destruct (props_at _ _); [| exact E].
  destruct (getSelector _ _); [reflexivity | exact E].
Qed.

Lemma run_inputs_keeps_recording evs st :
  isRecording (fold_left handleInput evs st) = isRecording st.
Proof.
  revert st. induction evs as [| ev evs IH]; intros st; simpl; [reflexivity |].
  rewrite IH. apply handleInput_keeps_recording.
Qed.

End RecorderFacts.

Section RecorderClaims.
Context {H : Host}.

(** The buffer after an input event: the other steps in their old order,
    then the new type step, which is the only one for its selector. *)
Lemma handleInput_buffer st ev t sel :
  isRecording st = true ->
  props_at (document ev) (target ev) = Some t ->
  getSelector (document ev) (target ev) = Normal sel ->
  let fresh := Step.typed sel (recorded_text t) (isSecret t) (now ev) in
  recordedSteps (handleInput st ev) =
    filter (fun step => negb (Step.is_type_on sel step)) (recordedSteps st) ++ [fresh] /\
  filter (Step.is_type_on sel) (recordedSteps (handleInput st ev)) = [fresh].
Proof.
  intros Hrec Ht Hsel fresh.
  rewrite (handleInput_resolved st ev t sel Hrec Ht Hsel). simpl. fold fresh.
  split; [reflexivity |].
  rewrite filter_app, filter_out_then_in. simpl.
  unfold Step.is_type_on. simpl. rewrite String.eqb_refl. reflexivity.
Qed.

(** C3 (as amended).  [stopRecording()] returns the accumulated buffer,
    sets [isRecording] to false and removes the three listeners, so that
    no event delivered afterwards changes anything; it leaves
    [recordedSteps] as it is.  The buffer is emptied by the next
    [startRecording()]. *)
Theorem stopRecording_returns_and_keeps_buffer (st : State) :
  fst (stopRecording st) = recordedSteps st /\
  recordedSteps (snd (stopRecording st)) = recordedSteps st /\
  isRecording (snd (stopRecording st)) = false /\
  listeners (snd (stopRecording st)) = mkListeners false false false /\
  (forall k ev, deliver (snd (stopRecording st)) k ev = snd (stopRecording st)) /\
  recordedSteps (startRecording (snd (stopRecording st))) = [].
Proof.
  repeat split. intros [] ev; reflexivity.
Qed.

(** What the two handlers do with one toggle of a checkbox or radio
  control, in general: the click is recorded by the click handler like a
  click on any other element, and the change that follows is recorded by
  the change handler with the resulting [checked] flag. *)
Lemma toggle_gesture_records_two_steps st click_ev change_ev t t' sel sel' :
  isRecording st = true ->
  props_at (document click_ev) (target click_ev) = Some t ->
  is_toggle t = true ->
  id t <> "macromate-indicator" ->
  getSelector (document click_ev) (target click_ev) = Normal sel ->
  props_at (document change_ev) (target change_ev) = Some t' ->
  is_toggle t' = true ->
  toLowerCase (tagName t') <> "select" ->
  getSelector (document change_ev) (target change_ev) = Normal sel' ->
  recordedSteps (handleClick st click_ev) =
    recordedSteps st
      ++ [Step.click sel (toLowerCase (tagName t)) (click_text t) (now click_ev)] /\
  recordedSteps (handleChange (handleClick st click_ev) change_ev) =
    recordedSteps st
      ++ [Step.click sel (toLowerCase (tagName t)) (click_text t) (now click_ev);
          Step.toggle sel' (checked t') (now change_ev)].
Proof.
  intros Hrec Ht _ Hid Hsel Ht' Htog' Htag' Hsel'.
  rewrite (handleClick_resolved st click_ev t sel Hrec Ht Hid Hsel).
  split; [reflexivity |].
  set (clicked := push st _).
  rewrite (handleChange_toggle clicked change_ev t' sel' Hrec Ht' Htag' Htog' Hsel').
  simpl. rewrite <- app_assoc. reflexivity.
Qed.

(** C9.  After an input event the buffer is the old buffer without the
    type steps for the event's selector, in their old order, followed by the
    new type step: that step is the last element of the buffer and the only
    type step for its selector. *)
Theorem handleInput_moves_type_step_to_end st ev t sel :
  isRecording st = true ->
  props_at (document ev) (target ev) = Some t ->
  getSelector (document ev) (target ev) = Normal sel ->
  let fresh := Step.typed sel (recorded_text t) (isSecret t) (now ev) in
  recordedSteps (handleInput st ev) =
    filter (fun step => negb (Step.is_type_on sel step)) (recordedSteps st) ++ [fresh] /\
  (forall d, last (recordedSteps (handleInput st ev)) d = fresh) /\
  filter (Step.is_type_on sel) (recordedSteps (handleInput st ev)) = [fresh].
Proof.
  intros Hrec Ht Hsel fresh.
  destruct (handleInput_buffer st ev t sel Hrec Ht Hsel) as [Hbuf Hone].
  split; [exact Hbuf | split; [| exact Hone]].
  intros d. rewrite Hbuf. apply last_snoc.
Qed.

(** C5 (as amended).  After a non-empty sequence of input events that all
    resolve to the same selector, the buffer holds exactly one type step
    for that selector; it carries the timestamp of the last event and, as
    text, the value the field had at the last event, or the redaction marker
    if the field is a password field. *)
Theorem input_events_collapse st evs ev t sel :
  isRecording st = true ->
  Forall (resolves_to sel) (evs ++ [ev]) ->
  props_at (document ev) (target ev) = Some t ->
  filter (Step.is_type_on sel)
         (recordedSteps (fold_left handleInput (evs ++ [ev]) st))
  = [Step.typed sel (recorded_text t) (isSecret t) (now ev)].
Proof.
  intros Hrec Hall Ht.
  rewrite fold_left_app. simpl.
  apply Forall_app in Hall. destruct Hall as [_ Hlast].
  inversion Hlast as [| ? ? [t0 [Ht0 Hsel]] _]; subst.
  rewrite Ht in Ht0. injection Ht0 as <-.
  assert (Hrec' : isRecording (fold_left handleInput evs st) = true)
    by (rewrite run_inputs_keeps_recording; exact Hrec).
  apply (handleInput_buffer _ ev t sel Hrec' Ht Hsel).
Qed.

End RecorderClaims.

(** ** The recorder on the sample page *)

Section RecorderExamples.
#[local] Existing Instance Reference.host.
Import Sample.

(** C3, counterexample.  Record one click on the button, then stop: the
    array is returned and the script's buffer still holds the step. *)
Lemma stopRecording_buffer_not_empty :
  let st := handleClick Sample.recording (mkEvent Sample.page Sample.go 1) in
  fst (stopRecording st) = [Step.click "#go" "button" "Go" 1] /\
  recordedSteps (snd (stopRecording st)) <> [].
Proof.
  vm_compute. split; [reflexivity | discriminate].
Qed.

(** C1, the failing input.  One toggle of the checkbox of the sample page
  while recording, delivered as a click event and a change event: the
  click handler appends a step for the click, the change handler appends
  the step with the [checked] flag, and the buffer holds two steps for the
  one gesture.  Replayed, the two steps click the checkbox twice. *)
Theorem checkbox_toggle_is_recorded_twice :
props_at Sample.page Sample.agree = Some agree_props /\
is_toggle agree_props = true /\
recordedSteps (handleClick Sample.recording (agree_event 5))
  = [Step.click "#agree" "input" "" 5] /\
recordedSteps (deliver (deliver Sample.recording ClickEvent (agree_event 5))
                       ChangeEvent (agree_event 6))
  = [Step.click "#agree" "input" "" 5; Step.toggle "#agree" (Some true) 6] /\
length (recordedSteps (deliver (deliver Sample.recording ClickEvent (agree_event 5))
                               ChangeEvent (agree_event 6))) <> 1 /\
Replay.trace (Replay.replay Sample.page
         (recordedSteps (deliver (deliver Sample.recording ClickEvent (agree_event 5))
                                 ChangeEvent (agree_event 6))))
  = [ShowRunningIndicator;
     Query "#agree"; ScrollIntoView Sample.agree; Sleep 200; Highlight Sample.agree;
     Click Sample.agree; Sleep 500;
     Query "#agree"; ScrollIntoView Sample.agree; Sleep 200; Highlight Sample.agree;
     Click Sample.agree; Sleep 500;
     RemoveRunningIndicator].
Proof.
vm_compute. repeat split; discriminate.
Qed.

Lemma toggle_gesture_witness :
  recordedSteps (handleClick Sample.recording (agree_event 5))
    = [] ++ [Step.click "#agree" "input" "" 5] /\
  recordedSteps (handleChange (handleClick Sample.recording (agree_event 5))
                              (agree_event 6))
    = [] ++ [Step.click "#agree" "input" "" 5; Step.toggle "#agree" (Some true) 6].
Proof.
  apply (toggle_gesture_records_two_steps (H := Reference.host) Sample.recording
           (agree_event 5) (agree_event 6) agree_props agree_props "#agree" "#agree");
    try reflexivity; vm_compute; discriminate.
Defined.

(** C5, counterexample.  An input event on the password field holding
    ["hunter2"] leaves one type step for the field, and its text is not
    the value. *)
Lemma password_step_does_not_hold_value :
  option_map value (props_at (document (pw_input "hunter2" 7)) Sample.pw)
    = Some (Some "hunter2") /\
  filter (Step.is_type_on "#pw")
         (recordedSteps (fold_left handleInput [pw_input "hunter2" 7] Sample.recording))
    = [Step.typed "#pw" (Some "{{SECRET}}") true 7] /\
  ~ (exists step,
        filter (Step.is_type_on "#pw")
               (recordedSteps (fold_left handleInput [pw_input "hunter2" 7] Sample.recording))
          = [step] /\
        Step.text step = Some "hunter2").
Proof.
  split; [reflexivity | split; [reflexivity |]].
  intros [step [Hone Htext]].
  vm_compute in Hone. injection Hone as <-. discriminate Htext.
Qed.

Lemma input_events_collapse_witness :
  filter (Step.is_type_on qty_selector)
         (recordedSteps
            (fold_left handleInput
               ([qty_input "a" 1; qty_input "ab" 2] ++ [qty_input "abc" 3])
               Sample.recording))
  = [Step.typed qty_selector (Some "abc") false 3].
Proof.
  apply (input_events_collapse (H := Reference.host) Sample.recording
           [qty_input "a" 1; qty_input "ab" 2] (qty_input "abc" 3)
           (qty_props "abc") qty_selector).
  - reflexivity.
  - repeat constructor.
    + exists (qty_props "a"). split; reflexivity.
    + exists (qty_props "ab"). split; reflexivity.
    + exists (qty_props "abc"). split; reflexivity.
  - reflexivity.
Defined.

Lemma handleInput_moves_type_step_witness :
  let fresh := Step.typed qty_selector (Some "42") false 4 in
  recordedSteps (handleInput mixed_buffer (qty_input "42" 4))
    = filter (fun step => negb (Step.is_type_on qty_selector step))
             (recordedSteps mixed_buffer) ++ [fresh] /\
  (forall d, last (recordedSteps (handleInput mixed_buffer (qty_input "42" 4))) d = fresh) /\
  filter (Step.is_type_on qty_selector)
         (recordedSteps (handleInput mixed_buffer (qty_input "42" 4))) = [fresh].
Proof.
  apply (handleInput_moves_type_step_to_end (H := Reference.host) mixed_buffer (qty_input "42" 4)
           (qty_props "42") qty_selector); reflexivity.
Defined.

(** The buffer of the example before and after the second input event. *)
Example mixed_buffer_order :
  map Step.type (recordedSteps mixed_buffer) = ["click"; "type"; "click"] /\
  map Step.type (recordedSteps (handleInput mixed_buffer (qty_input "42" 4)))
    = ["click"; "click"; "type"].
Proof. split; reflexivity. Qed.

End RecorderExamples.

(* ===================================================================== *)
(** * Properties of the replay executor *)
(* ===================================================================== *)

Import Replay.

Section ReplayFacts.
Context {H : Host}.

(** A step whose selector finds nothing throws right after the lookup. *)
Lemma executeStep_not_found step w :
  querySelector (page w) (to_string (Step.selector step)) = Normal None ->
  executeStep step w =
    (Throw ("Element not found: " +++ to_string (Step.selector step)),
     mkWorld (page w) (trace w ++ [Query (to_string (Step.selector step))])).
Proof.
  intros Hq. unfold executeStep, bind, lookup. rewrite Hq. reflexivity.
Qed.

(** A [wait] step whose selector finds an element scrolls to it and
    highlights it before it pauses. *)
Lemma executeStep_wait_found step w element :
  Step.type step = "wait" ->
  querySelector (page w) (to_string (Step.selector step)) = Normal (Some element) ->
  trace (snd (executeStep step w)) =
    trace w ++ [Query (to_string (Step.selector step)); ScrollIntoView element;
                Sleep 200; Highlight element; Sleep (timeout_or_default step)].
Proof.
  intros Hty Hq. unfold executeStep, bind, lookup, wait, perform.
  rewrite Hq, Hty. simpl. repeat rewrite <- app_assoc. reflexivity.
Qed.

(** While no step throws, the loop does what [performed] describes. *)
Lemma run_from_performed pre rest i w w' :
  performed pre w = Some w' ->
  run_from (pre ++ rest) i w = run_from rest (i + length pre) w'.
Proof.
  revert i w. induction pre as [| step pre IH]; intros i w Hp; simpl in *.
  - injection Hp as <-. rewrite Nat.add_0_r. reflexivity.
  - unfold turn in Hp.
    destruct ((executeStep step;; wait 500) w) as [[[] | m] w1] eqn:E; [| discriminate].
    rewrite (IH (S i) w1 Hp). f_equal. lia.
Qed.

(** The loop arriving at a step whose selector finds nothing. *)
Lemma run_from_not_found step rest i w :
  querySelector (page w) (to_string (Step.selector step)) = Normal None ->
  let message := "Element not found: " +++ to_string (Step.selector step) in
  let report := Alert ("Error at step " +++ number_to_string (i + 1) +++ ": " +++ message) in
  run_from (step :: rest) i w =
    (Normal tt,
     mkWorld (respond (respond (page w) (ConsoleError message)) report)
             (trace w ++ [Query (to_string (Step.selector step));
                          ConsoleError message; report])).
Proof.
  intros Hq message report. simpl.
  unfold bind at 1. rewrite (executeStep_not_found step w Hq).
  unfold bind, perform. simpl. repeat rewrite <- app_assoc. reflexivity.
Qed.

End ReplayFacts.

Section ReplayClaims.
Context {H : Host}.

(** The world in which the loop of [runMacro] starts on document [d]. *)
Lemma runMacro_unfold d steps :
  replay d steps =
    let w := snd (run_from steps 0
                    (mkWorld (respond d ShowRunningIndicator) [ShowRunningIndicator])) in
    match fst (run_from steps 0
                 (mkWorld (respond d ShowRunningIndicator) [ShowRunningIndicator])) with
    | Normal _ => mkWorld (respond (page w) RemoveRunningIndicator)
                          (trace w ++ [RemoveRunningIndicator])
    | Throw _ => w
    end.
Proof.
  unfold replay, runMacro, bind, perform. simpl.
  destruct (run_from steps 0 _) as [[[] | m] w]; reflexivity.
Qed.

(** C4 (as amended).  Let step [i] be the first step that fails, and let
    it fail because its selector matches no element of the page as it is
    when the step is reached: all the steps before it have been executed
    without throwing and have left the world [w'].  Then the executor has
    performed exactly those steps, looks the selector up, reports
    ["Error at step i: Element not found: <selector>"] with the 1-based index
    [i], and stops: the steps after [i] have no part in the outcome. *)
Theorem runMacro_aborts_at_first_missing_element d pre step post w' :
  performed pre (mkWorld (respond d ShowRunningIndicator) [ShowRunningIndicator])
    = Some w' ->
  querySelector (page w') (to_string (Step.selector step)) = Normal None ->
  let selector := to_string (Step.selector step) in
  let message := "Element not found: " +++ selector in
  let report :=
    Alert ("Error at step " +++ number_to_string (length pre + 1) +++ ": " +++ message) in
  run_from pre 0 (mkWorld (respond d ShowRunningIndicator) [ShowRunningIndicator])
    = (Normal tt, w') /\
  trace (replay d (pre ++ step :: post))
    = trace w' ++ [Query selector; ConsoleError message; report; RemoveRunningIndicator] /\
  replay d (pre ++ step :: post) = replay d (pre ++ [step]).
Proof.
  intros Hpre Hq selector message report.
  assert (Hrun : forall rest,
             run_from (pre ++ step :: rest) 0
               (mkWorld (respond d ShowRunningIndicator) [ShowRunningIndicator])
             = (Normal tt,
                mkWorld (respond (respond (page w') (ConsoleError message)) report)
                        (trace w' ++ [Query selector; ConsoleError message; report]))).
  { intros rest. rewrite (run_from_performed pre (step :: rest) 0 _ w' Hpre).
    apply (run_from_not_found step rest (0 + length pre) w' Hq). }
  split; [| split].
  - pose proof (run_from_performed pre [] 0 _ w' Hpre) as E.
    rewrite List.app_nil_r in E. exact E.
  - rewrite runMacro_unfold, (Hrun post). simpl.
    rewrite <- app_assoc. reflexivity.
  - rewrite !runMacro_unfold, (Hrun post), (Hrun []). reflexivity.
Qed.

End ReplayClaims.

(** ** The executor on the sample page *)

Section ReplayExamples.
#[local] Existing Instance Reference.host.
Import Sample.

(** C2, the failing input.  A macro made of one [wait] step of 300 ms,
    replayed on the sample page: the executor looks up the selector
    ["undefined"], finds nothing, reports an error at step 1 and never
    pauses for the 300 ms. *)
Theorem wait_step_without_selector_aborts :
  trace (replay Sample.page [wait_step 300])
    = [ShowRunningIndicator;
       Query "undefined";
       ConsoleError "Element not found: undefined";
       Alert "Error at step 1: Element not found: undefined";
       RemoveRunningIndicator] /\
  ~ In (Sleep 300) (trace (replay Sample.page [wait_step 300])).
Proof.
  split; [reflexivity |].
  vm_compute. intros [E | [E | [E | [E | [E | []]]]]]; discriminate E.
Qed.

(** A [wait] step that is given the selector of an element of the page does
    pause, after it has scrolled to the element and highlighted it. *)
Example wait_step_with_selector :
  trace (replay Sample.page
           [Step.mk "wait" (Some "#go") None None None None None None None])
    = [ShowRunningIndicator;
       Query "#go"; ScrollIntoView Sample.go; Sleep 200; Highlight Sample.go;
       Sleep 1000; Sleep 500;
       RemoveRunningIndicator].
Proof. reflexivity. Qed.

(** C4, counterexample.  Neither selector of [two_missing] matches an
    element of the sample page, so step 2 is a step whose selector matches
    nothing; the executor stops at step 1 and never reports step 2. *)
Lemma second_missing_step_is_not_reported :
  querySelector Sample.page "#gone" = Normal None /\
  nth_error two_missing 1 = Some (Step.click "#gone" "button" "" 2) /\
  trace (replay Sample.page two_missing)
    = [ShowRunningIndicator;
       Query "#nope";
       ConsoleError "Element not found: #nope";
       Alert "Error at step 1: Element not found: #nope";
       RemoveRunningIndicator] /\
  ~ In (Alert "Error at step 2: Element not found: #gone")
       (trace (replay Sample.page two_missing)).
Proof.
  repeat split; try reflexivity.
  vm_compute. intros [E | [E | [E | [E | [E | []]]]]]; discriminate E.
Qed.

Lemma runMacro_aborts_witness :
  trace (replay Sample.page ([Step.click "#go" "button" "Go" 1]
                             ++ Step.click "#missing" "button" "" 2
                             :: [Step.click "#agree" "input" "" 3]))
    = [ShowRunningIndicator;
       Query "#go"; ScrollIntoView Sample.go; Sleep 200; Highlight Sample.go;
       Click Sample.go; Sleep 500]
      ++ [Query "#missing";
          ConsoleError "Element not found: #missing";
          Alert ("Error at step " +++ number_to_string (1 + 1) +++ ": "
                   +++ "Element not found: #missing");
          RemoveRunningIndicator].
Proof.
  apply (runMacro_aborts_at_first_missing_element (H := Reference.host)
           Sample.page [Step.click "#go" "button" "Go" 1]
           (Step.click "#missing" "button" "" 2)
           [Step.click "#agree" "input" "" 3]
           (mkWorld Sample.page
              [ShowRunningIndicator;
               Query "#go"; ScrollIntoView Sample.go; Sleep 200; Highlight Sample.go;
               Click Sample.go; Sleep 500])); reflexivity.
Defined.

End ReplayExamples.

(* ===================================================================== *)
(** * Properties of the selector resolver *)
(* ===================================================================== *)

Section TreeFacts.

Lemma descend_app p q e :
  descend (p ++ q) e =
    match descend p e with
    | Some c => descend q c
    | None => None
    end.
Proof.
  revert e. induction p as [| i p IH]; intros e; simpl; [reflexivity |].
  destruct (nth_error (children e) i); [apply IH | reflexivity].
Qed.

(** An element that is in the tree has its parent in the tree, and is the
    child of that parent that its reference says. *)
Lemma node_at_child d i parent :
  node_at d (i :: parent) =
    match node_at d parent with
    | Some p => nth_error (children p) i
    | None => None
    end.
Proof.
  unfold node_at. simpl. rewrite descend_app.
  destruct (descend (rev parent) d) as [p |]; [| reflexivity].
  simpl. destruct (nth_error (children p) i); reflexivity.
Qed.

Lemma firstn_snoc {A} (l : list A) j x :
  nth_error l j = Some x -> firstn (S j) l = firstn j l ++ [x].
Proof.
  revert j. induction l as [| y l IH]; intros [| j] Hn; simpl in *; try discriminate.
  - injection Hn as ->. reflexivity.
  - rewrite (IH j Hn). reflexivity.
Qed.

(** The inner loop counts the earlier siblings that carry the tag. *)
Lemma count_previous_filter siblings tag i nth :
  i <= length siblings ->
  count_previous siblings tag i nth =
    nth + length (filter (fun s => String.eqb (tagName (props s)) tag)
                         (firstn i siblings)).
Proof.
  revert nth. induction i as [| j IH]; intros nth Hi; simpl count_previous.
  - rewrite firstn_0. simpl. lia.
  - destruct (nth_error siblings j) as [s |] eqn:Hs.
    + rewrite IH by lia. rewrite (firstn_snoc siblings j s Hs).
      rewrite filter_app, length_app. simpl.
      destruct (String.eqb (tagName (props s)) tag); simpl; lia.
    + apply nth_error_None in Hs. lia.
Qed.

Lemma nth_of_ordinal d r e :
  props_at d r = Some e ->
  nth_of d r (tagName e) = PathSpec.ordinal d r.
Proof.
  intros He. unfold nth_of, PathSpec.ordinal.
  destruct r as [| i parent]; [destruct (props_at d []); reflexivity |].
  rewrite He. unfold props_at in He. rewrite node_at_child in He.
  destruct (node_at d parent) as [p |]; [| discriminate].
  destruct (nth_error (children p) i) eqn:Hn; [| discriminate].
  apply count_previous_filter.
  apply Nat.lt_le_incl. apply nth_error_Some. congruence.
Qed.

(** One turn of the outer loop. *)
Lemma build_path_eq d current path :
  build_path d current path =
    if is_body d current then path
    else
      match props_at d current with
      | None => path
      | Some c =>
          let selector := toLowerCase (tagName c) in
          if truthy (id c) then (selector +++ "#" +++ id c) :: path
          else
            let nth := nth_of d current (tagName c) in
            let selector :=
              if 1 <? nth
              then selector +++ ":nth-of-type(" +++ number_to_string nth +++ ")"
              else selector in
            match current with
            | [] => selector :: path
            | _ :: parent => build_path d parent (selector :: path)
            end
      end.
Proof. destruct current; reflexivity. Qed.

(** The segment the loop emits for an element is the one described. *)
Lemma loop_segment d r e :
  props_at d r = Some e ->
  PathSpec.segment d r =
    if truthy (id e) then toLowerCase (tagName e) +++ "#" +++ id e
    else if 1 <? nth_of d r (tagName e)
         then toLowerCase (tagName e) +++ ":nth-of-type("
                +++ number_to_string (nth_of d r (tagName e)) +++ ")"
         else toLowerCase (tagName e).
Proof.
  intros He. unfold PathSpec.segment. rewrite He, (nth_of_ordinal d r e He).
  reflexivity.
Qed.

(** The array built by the loop holds the described segments, outermost
    first, in front of what it held before. *)
Lemma build_path_levels d r path :
  node_at d r <> None ->
  build_path d r path = rev (map (PathSpec.segment d) (PathSpec.levels d r)) ++ path.
Proof.
  revert path. induction r as [| i parent IH]; intros path Hin;
    rewrite build_path_eq; unfold PathSpec.levels;
    cbn [PathSpec.self_and_ancestors PathSpec.before_first].
  - destruct (is_body d []); [reflexivity |].
    cbn [PathSpec.through_first]. unfold PathSpec.has_identifier.
    destruct (props_at d []) as [e |] eqn:He.
    + pose proof (loop_segment d [] e He) as Hseg.
      destruct (truthy (id e)); cbn [map rev app]; rewrite Hseg; reflexivity.
    + unfold props_at in He. destruct (node_at d []); [discriminate | contradiction].
  - destruct (is_body d (i :: parent)); [reflexivity |].
    cbn [PathSpec.through_first]. unfold PathSpec.has_identifier at 1.
    destruct (props_at d (i :: parent)) as [e |] eqn:He.
    + assert (Hparent : node_at d parent <> None).
      { rewrite node_at_child in Hin. destruct (node_at d parent); congruence. }
      pose proof (loop_segment d (i :: parent) e He) as Hseg.
      destruct (truthy (id e)).
      * cbn [map rev app]. rewrite Hseg. reflexivity.
      * cbv zeta. rewrite (IH _ Hparent).
        fold (PathSpec.levels d parent). cbn [map rev].
        rewrite Hseg, <- app_assoc. reflexivity.
    + unfold props_at in He. destruct (node_at d (i :: parent)); [discriminate | contradiction].
Qed.

(** The loop adds no segment only when it starts at the body. *)
Lemma build_path_empty d r :
  node_at d r <> None -> build_path d r [] = [] -> is_body d r = true.
Proof.
  intros Hin E. rewrite (build_path_levels d r [] Hin), List.app_nil_r in E.
  unfold PathSpec.levels in E.
  destruct r as [| i parent]; cbn [PathSpec.self_and_ancestors PathSpec.before_first] in E.
  - destruct (is_body d []); [reflexivity |].
    cbn [PathSpec.through_first] in E.
    destruct (PathSpec.has_identifier d []); discriminate E.
  - destruct (is_body d (i :: parent)); [reflexivity |].
    cbn [PathSpec.through_first] in E.
    destruct (PathSpec.has_identifier d (i :: parent)); cbn [map rev] in E;
      try discriminate E.
    destruct (rev (map (PathSpec.segment d) _)) in E; discriminate E.
Qed.

End TreeFacts.

Section PathClaims.

(** C8 (as amended).  For an element of the document the fallback of
    [getSelector] yields the path as described: the element and its
    ancestors below the body, cut at the first one that has an identifier
    (named [tag#id]), each other level named by its lower-case tag with
    [:nth-of-type(n)] when its ordinal [n] among the siblings of the same tag
    exceeds 1, outermost first, joined by the child combinator [" > "]. *)
Theorem positional_path_as_described d r :
  node_at d r <> None ->
  positional_path d r = PathSpec.described_path PathSpec.child_combinator d r.
Proof.
  intros Hin. unfold positional_path, PathSpec.described_path.
  rewrite (build_path_levels d r [] Hin), List.app_nil_r. reflexivity.
Qed.

(** C8, counterexample.  For the second list item of the sample page the
    script joins the segments with [" > "]; joined with the descendant
    combinator they give another selector. *)
Lemma path_is_not_joined_by_descendant_combinator :
  positional_path Sample.page Sample.second_item = "ul > li:nth-of-type(2)" /\
  PathSpec.described_path PathSpec.descendant_combinator Sample.page Sample.second_item
    = "ul li:nth-of-type(2)" /\
  positional_path Sample.page Sample.second_item
    <> PathSpec.described_path PathSpec.descendant_combinator
         Sample.page Sample.second_item.
Proof.
  vm_compute. repeat split; discriminate.
Qed.

Lemma positional_path_witness :
  positional_path Sample.page Sample.second_item
    = PathSpec.described_path PathSpec.child_combinator Sample.page Sample.second_item.
Proof.
  apply (positional_path_as_described Sample.page Sample.second_item).
  vm_compute. discriminate.
Defined.

End PathClaims.

(** ** Strings *)

Section StringFacts.

Lemma append_assoc (a b c : string) : (a +++ b) +++ c = a +++ b +++ c.
Proof. induction a as [| x a IH]; simpl; [reflexivity | rewrite IH; reflexivity]. Qed.

Lemma append_cancel_l (a x y : string) : a +++ x = a +++ y -> x = y.
Proof.
  induction a as [| c a IH]; simpl; intros E; [exact E |].
  injection E as E. exact (IH E).
Qed.

Lemma occurs_append c (a b : string) : occurs c (a +++ b) = occurs c a || occurs c b.
Proof.
  induction a as [| x a IH]; simpl; [reflexivity |].
  rewrite IH. apply orb_assoc.
Qed.

Lemma occurs_rev_string c (s acc : string) :
  occurs c (rev_string s acc) = occurs c s || occurs c acc.
Proof.
  revert acc. induction s as [| x s IH]; intros acc; simpl; [reflexivity |].
  rewrite IH. simpl. destruct (Ascii.eqb x c), (occurs c s); reflexivity.
Qed.

(** Joining a non-empty list in front of one more element. *)
Lemma join_snoc sep (l : list string) (s : string) :
  join sep (l ++ [s]) =
    match l with
    | [] => s
    | _ :: _ => join sep l +++ sep +++ s
    end.
Proof.
  unfold join. induction l as [| x l IH]; [reflexivity |].
  destruct l as [| y l]; [reflexivity |].
  change (String.concat sep ((x :: y :: l) ++ [s]))
    with (x +++ sep +++ String.concat sep ((y :: l) ++ [s])).
  rewrite IH.
  change (String.concat sep (x :: y :: l)) with (x +++ sep +++ String.concat sep (y :: l)).
  rewrite !append_assoc. reflexivity.
Qed.

(** No piece of a split at white space holds a blank. *)
Lemma split_ws_from_no_space s cur gap :
  occurs " " cur = false ->
  Forall (fun piece => occurs " " piece = false) (split_ws_from s cur gap).
Proof.
  revert cur gap. induction s as [| c s IH]; intros cur gap Hcur; simpl.
  - constructor; [| constructor].
    rewrite occurs_rev_string, Hcur. reflexivity.
  - destruct (is_space c) eqn:Hsp.
    + destruct gap.
      * apply IH. exact Hcur.
      * constructor; [rewrite occurs_rev_string, Hcur; reflexivity | apply IH; reflexivity].
    + apply IH. simpl. rewrite Hcur.
      destruct (Ascii.eqb_spec c " ") as [-> |]; [discriminate Hsp | reflexivity].
Qed.

Lemma class_tokens_no_space cn :
  Forall (fun token => occurs " " token = false) (class_tokens cn).
Proof.
  unfold class_tokens. apply Forall_forall. intros token Hin.
  apply filter_In in Hin. destruct Hin as [Hin _].
  pose proof (split_ws_from_no_space (trim cn) "" false eq_refl) as Hall.
  rewrite Forall_forall in Hall. exact (Hall token Hin).
Qed.

Lemma join_no_space sep (l : list string) :
  occurs " " sep = false ->
  Forall (fun s => occurs " " s = false) l ->
  occurs " " (join sep l) = false.
Proof.
  intros Hsep Hall. unfold join. induction Hall as [| x l Hx Hall IH]; [reflexivity |].
  destruct l as [| y l]; [exact Hx |].
  change (String.concat sep (x :: y :: l)) with (x +++ sep +++ String.concat sep (y :: l)).
  rewrite !occurs_append, Hx, Hsep, IH. reflexivity.
Qed.

(** Tag names without colon and blank. *)

Lemma lower_char_plain c :
  plain_tag_char c = true ->
  Ascii.eqb (lower_char c) ":" = false /\ Ascii.eqb (lower_char c) " " = false.
Proof.
  destruct c as [[] [] [] [] [] [] [] []]; vm_compute; intros E;
    first [split; reflexivity | discriminate E].
Qed.

Lemma lower_no_space tag : plain_tag tag = true -> occurs " " (toLowerCase tag) = false.
Proof.
  induction tag as [| c tag IH]; simpl; intros Htag; [reflexivity |].
  apply andb_true_iff in Htag. destruct Htag as [Hc Htag].
  destruct (lower_char_plain c Hc) as [_ ->]. exact (IH Htag).
Qed.

(** Two lower-cased tag names followed by suffixes that are empty or begin
    with a colon: equal strings come from equal lower-cased tags and equal
    suffixes. *)
Lemma lower_tag_split t1 t2 u1 u2 :
  plain_tag t1 = true -> plain_tag t2 = true ->
  colon_led u1 -> colon_led u2 ->
  toLowerCase t1 +++ u1 = toLowerCase t2 +++ u2 ->
  toLowerCase t1 = toLowerCase t2 /\ u1 = u2.
Proof.
  revert t2. induction t1 as [| c1 t1 IH]; intros [| c2 t2] H1 H2 L1 L2 E; simpl in *.
  - split; [reflexivity | exact E].
  - apply andb_true_iff in H2. destruct H2 as [Hc _].
    destruct (lower_char_plain c2 Hc) as [Hcolon _].
    destruct L1 as [-> | [u' ->]]; [discriminate E |].
    injection E as Ec _. rewrite <- Ec in Hcolon. discriminate Hcolon.
  - apply andb_true_iff in H1. destruct H1 as [Hc _].
    destruct (lower_char_plain c1 Hc) as [Hcolon _].
    destruct L2 as [-> | [u' ->]]; [discriminate E |].
    injection E as Ec _. rewrite Ec in Hcolon. discriminate Hcolon.
  - apply andb_true_iff in H1. destruct H1 as [_ H1].
    apply andb_true_iff in H2. destruct H2 as [_ H2].
    injection E as Ec E.
    destruct (IH t2 H1 H2 L1 L2 E) as [-> ->].
    rewrite Ec. split; reflexivity.
Qed.

End StringFacts.

Section SuffixFacts.

Lemma append_empty_r (a : string) : a +++ "" = a.
Proof. induction a as [| c a IH]; simpl; [reflexivity | rewrite IH; reflexivity]. Qed.

Lemma length_append (a b : string) :
  String.length (a +++ b) = String.length a + String.length b.
Proof. induction a as [| c a IH]; simpl; [reflexivity | rewrite IH; reflexivity]. Qed.

Lemma append_cancel_r (x y s : string) : x +++ s = y +++ s -> x = y.
Proof.
  revert y. induction x as [| c x IH]; intros [| c' y] E; simpl in E.
  - reflexivity.
  - apply (f_equal String.length) in E. simpl in E. rewrite length_append in E. lia.
  - apply (f_equal String.length) in E. simpl in E. rewrite length_append in E. lia.
  - injection E as -> E. rewrite (IH y E). reflexivity.
Qed.

Lemma to_uint_not_nil n : Nat.to_uint n <> Decimal.Nil.
Proof.
  rewrite <- (DecimalNat.Unsigned.of_to n) at 1.
  rewrite DecimalNat.Unsigned.to_of. apply DecimalFacts.unorm_nonnil.
Qed.

Lemma number_to_string_inj n m : number_to_string n = number_to_string m -> n = m.
Proof.
  unfold number_to_string. intros E.
  apply DecimalNat.Unsigned.to_uint_inj.
  pose proof (NilZero.usu _ (to_uint_not_nil n)) as Hn.
  pose proof (NilZero.usu _ (to_uint_not_nil m)) as Hm.
  rewrite E in Hn. rewrite Hn in Hm. injection Hm as Hm. exact Hm.
Qed.

Lemma nth_suffix_colon_led n : colon_led (nth_suffix n).
Proof.
  unfold nth_suffix, colon_led. destruct (1 <? n); [right | left; reflexivity].
  eexists. reflexivity.
Qed.

Lemma nth_suffix_inj n m :
  1 <= n -> 1 <= m -> nth_suffix n = nth_suffix m -> n = m.
Proof.
  unfold nth_suffix. intros Hn Hm E.
  destruct (Nat.ltb_spec 1 n), (Nat.ltb_spec 1 m); try discriminate E; [| lia].
  apply (append_cancel_l ":nth-of-type(") in E.
  apply append_cancel_r in E. exact (number_to_string_inj n m E).
Qed.

(** The segment of an element without identifier is its lower-case tag
    followed by the suffix for its ordinal. *)
Lemma segment_tag_suffix (tag : string) (nth : nat) :
  (if 1 <? nth
   then toLowerCase tag +++ ":nth-of-type(" +++ number_to_string nth +++ ")"
   else toLowerCase tag)
  = toLowerCase tag +++ nth_suffix nth.
Proof.
  unfold nth_suffix. destruct (1 <? nth); [reflexivity | rewrite append_empty_r; reflexivity].
Qed.

Lemma filter_firstn_le {A} (f : A -> bool) (l : list A) k :
  length (filter f (firstn k l)) <= length (filter f l).
Proof.
  revert k. induction l as [| x l IH]; intros [| k]; simpl; try lia.
  specialize (IH k). destruct (f x); simpl; lia.
Qed.

(** The count of the inner loop is at least 1, and two siblings with the
    same tag name get different counts. *)
Lemma count_previous_positive siblings tag i :
  i <= length siblings -> 1 <= count_previous siblings tag i 1.
Proof. intros Hi. rewrite count_previous_filter by exact Hi. lia. Qed.

Lemma count_previous_increases siblings tag i j s :
  i < j -> j <= length siblings ->
  nth_error siblings i = Some s -> tagName (props s) = tag ->
  count_previous siblings tag i 1 < count_previous siblings tag j 1.
Proof.
  intros Hij Hj Hs Htag.
  rewrite !count_previous_filter by lia.
  set (f := fun s => String.eqb (tagName (props s)) tag).
  assert (Hstep : length (filter f (firstn (S i) siblings))
                  = length (filter f (firstn i siblings)) + 1).
  { rewrite (firstn_snoc siblings i s Hs), filter_app, length_app. simpl.
    unfold f at 2. rewrite Htag, String.eqb_refl. reflexivity. }
  assert (Hle : length (filter f (firstn (S i) siblings))
                <= length (filter f (firstn j siblings))).
  { replace (firstn (S i) siblings) with (firstn (S i) (firstn j siblings)).
    - apply filter_firstn_le.
    - rewrite firstn_firstn. f_equal. lia. }
  lia.
Qed.

End SuffixFacts.

(** ** Siblings *)

Section SiblingFacts.

Lemma ref_eqb_eq a b : ref_eqb a b = true <-> a = b.
Proof.
  revert b. induction a as [| i a IH]; intros [| j b]; simpl; split; intros E;
    try reflexivity; try discriminate.
  - apply andb_true_iff in E. destruct E as [Eij E].
    apply Nat.eqb_eq in Eij. apply IH in E. subst. reflexivity.
  - injection E as -> ->. rewrite Nat.eqb_refl. apply IH. reflexivity.
Qed.

(** The body is a child of the root. *)
Lemma is_body_child d r :
  is_body d r = true -> exists b, r = [b] /\ body d = Some [b].
Proof.
  unfold is_body, body. destruct (find_index is_body_tag (children d) 0) as [b |];
    [| discriminate].
  intros E. apply ref_eqb_eq in E. exists b. split; [exact E | reflexivity].
Qed.

Lemma root_is_not_body d : is_body d [] = false.
Proof.
  destruct (is_body d []) eqn:E; [| reflexivity].
  apply is_body_child in E. destruct E as [b [E _]]. discriminate E.
Qed.

(** The path array of a child that is not the body and has no identifier:
    the levels from its parent up, then its own segment. *)
Lemma build_path_child d i parent e :
  props_at d (i :: parent) = Some e ->
  truthy (id e) = false ->
  is_body d (i :: parent) = false ->
  build_path d (i :: parent) [] =
    rev (map (PathSpec.segment d) (PathSpec.levels d parent))
      ++ [toLowerCase (tagName e) +++ nth_suffix (nth_of d (i :: parent) (tagName e))].
Proof.
  intros He Hid Hbody. rewrite build_path_eq, Hbody, He, Hid. cbv zeta.
  rewrite segment_tag_suffix. apply build_path_levels.
  unfold props_at in He. rewrite node_at_child in He.
  destruct (node_at d parent); [discriminate | discriminate He].
Qed.

Lemma build_path_body d r path : is_body d r = true -> build_path d r path = path.
Proof. intros Hb. rewrite build_path_eq, Hb. reflexivity. Qed.

(** A path of two segments or more holds a blank. *)
Lemma join_snoc_space (l : list string) (s : string) :
  l <> [] -> occurs " " (join " > " (l ++ [s])) = true.
Proof.
  intros Hl. rewrite join_snoc. destruct l as [| x l]; [contradiction |].
  rewrite !occurs_append. simpl. apply orb_true_r.
Qed.

Lemma nth_of_child d i parent p tag :
  node_at d parent = Some p ->
  nth_of d (i :: parent) tag = count_previous (children p) tag i 1.
Proof. intros Hp. unfold nth_of. rewrite Hp. reflexivity. Qed.

(** Two siblings with the same tag name have different ordinals. *)
Lemma siblings_ordinals_differ d i j parent e1 e2 :
  i <> j ->
  props_at d (i :: parent) = Some e1 ->
  props_at d (j :: parent) = Some e2 ->
  tagName e1 = tagName e2 ->
  nth_of d (i :: parent) (tagName e1) <> nth_of d (j :: parent) (tagName e2) /\
  1 <= nth_of d (i :: parent) (tagName e1) /\
  1 <= nth_of d (j :: parent) (tagName e2).
Proof.
  intros Hij H1 H2 Htag. unfold props_at in H1, H2.
  rewrite node_at_child in H1, H2.
  destruct (node_at d parent) as [p |] eqn:Hp; [| discriminate].
  rewrite !(nth_of_child d _ parent p _ Hp).
  destruct (nth_error (children p) i) as [s1 |] eqn:Hs1; [| discriminate].
  destruct (nth_error (children p) j) as [s2 |] eqn:Hs2; [| discriminate].
  simpl in H1, H2. injection H1 as H1. injection H2 as H2.
  assert (Hi : i < length (children p)) by (apply nth_error_Some; congruence).
  assert (Hj : j < length (children p)) by (apply nth_error_Some; congruence).
  rewrite <- Htag.
  split; [| split; apply count_previous_positive; lia].
  destruct (Nat.lt_total i j) as [Hlt | [Heq | Hgt]]; [| contradiction |].
  - pose proof (count_previous_increases (children p) (tagName e1) i j s1 Hlt
                  (Nat.lt_le_incl _ _ Hj) Hs1 (f_equal tagName H1)). lia.
  - assert (Ht2 : tagName (props s2) = tagName e1) by (rewrite H2; symmetry; exact Htag).
    pose proof (count_previous_increases (children p) (tagName e1) j i s2 Hgt
                  (Nat.lt_le_incl _ _ Hi) Hs2 Ht2). lia.
Qed.

(** Two siblings without identifier get different positional paths. *)
Lemma siblings_paths_differ d i j parent e1 e2 :
  i <> j ->
  props_at d (i :: parent) = Some e1 ->
  props_at d (j :: parent) = Some e2 ->
  truthy (id e1) = false -> truthy (id e2) = false ->
  plain_tag (tagName e1) = true -> plain_tag (tagName e2) = true ->
  same_or_other_tag (tagName e1) (tagName e2) ->
  positional_path d (i :: parent) <> positional_path d (j :: parent).
Proof.
  intros Hij H1 H2 Hid1 Hid2 Ht1 Ht2 Hcase. unfold positional_path.
  assert (Hroot : forall k b, is_body d (k :: parent) = true -> body d = Some [b] ->
            PathSpec.levels d parent <> []).
  { intros k b Hk _. apply is_body_child in Hk. destruct Hk as [b' [E _]].
    injection E as _ ->. unfold PathSpec.levels. simpl.
    rewrite root_is_not_body. simpl. destruct (PathSpec.has_identifier d []); discriminate. }
  assert (Hmap : forall l : list Ref,
             l <> [] -> rev (map (PathSpec.segment d) l) <> []).
  { intros [| x l] Hl; [contradiction |]. simpl.
    destruct (rev (map (PathSpec.segment d) l)); discriminate. }
  destruct (is_body d (i :: parent)) eqn:Hb1, (is_body d (j :: parent)) eqn:Hb2.
  - apply is_body_child in Hb1, Hb2.
    destruct Hb1 as [b1 [E1 B1]], Hb2 as [b2 [E2 B2]].
    rewrite B1 in B2. injection B2 as <-. injection E1 as -> _. injection E2 as -> _.
    contradiction.
  - rewrite (build_path_body d _ [] Hb1), (build_path_child d j parent e2 H2 Hid2 Hb2).
    destruct (is_body_child d _ Hb1) as [b [_ B]].
    intros E. pose proof (join_snoc_space _
      (toLowerCase (tagName e2) +++ nth_suffix (nth_of d (j :: parent) (tagName e2)))
      (Hmap _ (Hroot i b Hb1 B))) as Hsp.
    rewrite <- E in Hsp. discriminate Hsp.
  - rewrite (build_path_body d _ [] Hb2), (build_path_child d i parent e1 H1 Hid1 Hb1).
    destruct (is_body_child d _ Hb2) as [b [_ B]].
    intros E. pose proof (join_snoc_space _
      (toLowerCase (tagName e1) +++ nth_suffix (nth_of d (i :: parent) (tagName e1)))
      (Hmap _ (Hroot j b Hb2 B))) as Hsp.
    rewrite E in Hsp. discriminate Hsp.
  - rewrite (build_path_child d i parent e1 H1 Hid1 Hb1),
            (build_path_child d j parent e2 H2 Hid2 Hb2), !join_snoc.
    intros E.
    assert (Eseg : toLowerCase (tagName e1) +++ nth_suffix (nth_of d (i :: parent) (tagName e1))
                   = toLowerCase (tagName e2) +++ nth_suffix (nth_of d (j :: parent) (tagName e2))).
    { destruct (rev (map (PathSpec.segment d) (PathSpec.levels d parent))); [exact E |].
      apply append_cancel_l in E. apply append_cancel_l in E. exact E. }
    destruct (lower_tag_split _ _ _ _ Ht1 Ht2 (nth_suffix_colon_led _)
                (nth_suffix_colon_led _) Eseg) as [Elow Esuf].
    pose proof (Hcase Elow) as Etag.
    destruct (siblings_ordinals_differ d i j parent e1 e2 Hij H1 H2 Etag)
      as [Hne [Hp1 Hp2]].
    apply Hne. exact (nth_suffix_inj _ _ Hp1 Hp2 Esuf).
Qed.

End SiblingFacts.

(** ** The priority chain *)

Section ResolverClaims.
Context {H : Host}.

(** [getSelector] on an element without identifier and without name. *)
Lemma getSelector_unidentified d r e :
  props_at d r = Some e ->
  truthy (id e) = false ->
  truthy_opt (name e) = false ->
  getSelector d r =
    match class_list e with
    | [] => Normal (positional_path d r)
    | _ :: _ =>
        match querySelectorAll d (compound_selector e (class_list e)) with
        | Throw m => Throw m
        | Normal found =>
            if length found =? 1
            then Normal (compound_selector e (class_list e))
            else Normal (positional_path d r)
        end
    end.
Proof.
  intros He Hid Hname. unfold getSelector, class_list. rewrite He, Hid, Hname.
  destruct (className e) as [cn |]; [| reflexivity].
  destruct (truthy cn) eqn:Hcn.
  - destruct (class_tokens cn); reflexivity.
  - unfold truthy in Hcn. apply negb_false_iff in Hcn.
    apply String.eqb_eq in Hcn. subst cn. reflexivity.
Qed.

Lemma class_list_no_space e :
  Forall (fun token => occurs " " token = false) (class_list e).
Proof.
  unfold class_list. destruct (className e); [apply class_tokens_no_space | constructor].
Qed.

(** The positional path of an element is never its compound selector. *)
Lemma path_is_not_compound d r e :
  props_at d r = Some e ->
  truthy (id e) = false ->
  plain_tag (tagName e) = true ->
  positional_path d r <> compound_selector e (class_list e).
Proof.
  intros He Hid Htag. unfold positional_path, compound_selector.
  assert (Hplain : occurs " " (toLowerCase (tagName e) +++ "." +++ join "." (class_list e))
                   = false).
  { rewrite !occurs_append, (lower_no_space _ Htag). simpl.
    apply join_no_space; [reflexivity | apply class_list_no_space]. }
  assert (Hone : forall n, toLowerCase (tagName e) +++ nth_suffix n
                           <> toLowerCase (tagName e) +++ "." +++ join "." (class_list e)).
  { intros n E. apply append_cancel_l in E.
    destruct (nth_suffix_colon_led n) as [E' | [u E']]; rewrite E' in E; discriminate E. }
  destruct r as [| i parent].
  - rewrite build_path_eq, root_is_not_body, He, Hid. cbv zeta.
    rewrite segment_tag_suffix. apply Hone.
  - destruct (is_body d (i :: parent)) eqn:Hb.
    + rewrite (build_path_body d _ [] Hb). simpl.
      destruct (toLowerCase (tagName e)); discriminate.
    + rewrite (build_path_child d i parent e He Hid Hb).
      destruct (rev (map (PathSpec.segment d) (PathSpec.levels d parent))) as [| x l] eqn:El.
      * apply Hone.
      * intros E. rewrite <- E in Hplain.
        rewrite join_snoc_space in Hplain; [discriminate Hplain | discriminate].
Qed.

Lemma class_rule_holds d r e :
  props_at d r = Some e ->
  truthy (id e) = false ->
  truthy_opt (name e) = false ->
  plain_tag (tagName e) = true ->
  class_rule d r e.
Proof.
  intros He Hid Hname Htag found Hcls Hq.
  rewrite (getSelector_unidentified d r e He Hid Hname), Hq.
  destruct (class_list e) as [| c cs] eqn:Ecs; [contradiction |]. rewrite <- Ecs.
  split; intros Hlen.
  - rewrite Hlen. reflexivity.
  - apply Nat.eqb_neq in Hlen. rewrite Hlen.
    split; [reflexivity |]. intros E. injection E as E.
    exact (path_is_not_compound d r e He Hid Htag E).
Qed.

Lemma two_members_not_one {A} (x y : A) (l : list A) :
  x <> y -> In x l -> In y l -> length l <> 1.
Proof.
  intros Hxy Hx Hy. destruct l as [| a [| b l]]; simpl in *; try discriminate.
  destruct Hx as [-> | []], Hy as [-> | []]. contradiction.
Qed.

Lemma ambiguity_rule_holds d r e r1 r2 :
  r1 <> r2 ->
  props_at d r = Some e ->
  truthy (id e) = false ->
  truthy_opt (name e) = false ->
  plain_tag (tagName e) = true ->
  ambiguity_rule d r e r1 r2.
Proof.
  intros Hne He Hid Hname Htag found Hq H1 H2.
  destruct (class_list e) as [| c cs] eqn:Ecs.
  - rewrite (getSelector_unidentified d r e He Hid Hname), Ecs.
    split; [reflexivity |]. intros E. injection E as E.
    apply (path_is_not_compound d r e He Hid Htag). rewrite Ecs. exact E.
  - rewrite <- Ecs in *.
    apply (class_rule_holds d r e He Hid Hname Htag found); [| exact Hq |].
    + rewrite Ecs. discriminate.
    + exact (two_members_not_one r1 r2 found Hne H1 H2).
Qed.

(** Where the engine answers.  Take two sibling elements that have no
    identifier and no name and carry the same class list, their tag names
    being as in an HTML document (no colon, no blank, and not two names
    that differ in the case of their letters only).  For either of them
    the compound [tag.class] selector is the result only when the engine
    finds exactly one match for it; when the engine finds another number
    of matches, and in particular when it matches both siblings, the
    result is the positional path and not the compound selector; and the
    positional paths of the two siblings differ.  Nothing is said here of
    an engine that rejects the compound selector. *)
Lemma siblings_with_same_classes_resolve_apart d parent i j e1 e2 :
  i <> j ->
  props_at d (i :: parent) = Some e1 ->
  props_at d (j :: parent) = Some e2 ->
  truthy (id e1) = false -> truthy_opt (name e1) = false ->
  truthy (id e2) = false -> truthy_opt (name e2) = false ->
  class_list e1 = class_list e2 ->
  plain_tag (tagName e1) = true -> plain_tag (tagName e2) = true ->
  same_or_other_tag (tagName e1) (tagName e2) ->
  class_rule d (i :: parent) e1 /\
  class_rule d (j :: parent) e2 /\
  ambiguity_rule d (i :: parent) e1 (i :: parent) (j :: parent) /\
  ambiguity_rule d (j :: parent) e2 (i :: parent) (j :: parent) /\
  positional_path d (i :: parent) <> positional_path d (j :: parent).
Proof.
  intros Hij H1 H2 Hid1 Hn1 Hid2 Hn2 _ Ht1 Ht2 Hcase.
  assert (Hne : i :: parent <> j :: parent) by (intros E; injection E as E; contradiction).
  split; [| split; [| split; [| split]]].
  - apply class_rule_holds; assumption.
  - apply class_rule_holds; assumption.
  - apply ambiguity_rule_holds; assumption.
  - apply ambiguity_rule_holds; assumption.
  - exact (siblings_paths_differ d i j parent e1 e2 Hij H1 H2 Hid1 Hid2 Ht1 Ht2 Hcase).
Qed.

(** An element that is the body, without identifier, name and class. *)
Lemma getSelector_plain_body d r e :
  props_at d r = Some e ->
  truthy (id e) = false ->
  truthy_opt (name e) = false ->
  class_list e = [] ->
  is_body d r = true ->
  getSelector d r = Normal "".
Proof.
  intros He Hid Hname Hcls Hb.
  rewrite (getSelector_unidentified d r e He Hid Hname), Hcls.
  unfold positional_path. rewrite (build_path_body d r [] Hb). reflexivity.
Qed.

(** An event whose target [getSelector] throws for is dropped by every
    handler. *)
Lemma deliver_unresolved d r m st k now :
  getSelector d r = Throw m -> deliver st k (mkEvent d r now) = st.
Proof.
  intros Hthrow. destruct k; simpl.
  - destruct (click (listeners st)); [| reflexivity].
    unfold handleClick. simpl. rewrite Hthrow.
    destruct (negb (isRecording st)); [reflexivity |].
    destruct (props_at d r) as [t |]; [| reflexivity].
    destruct (String.eqb (id t) "macromate-indicator"); reflexivity.
  - destruct (input (listeners st)); [| reflexivity].
    unfold handleInput. simpl. rewrite Hthrow.
    destruct (negb (isRecording st)); [reflexivity |].
    destruct (props_at d r); reflexivity.
  - destruct (change (listeners st)); [| reflexivity].
    unfold handleChange. simpl. rewrite Hthrow.
    destruct (negb (isRecording st)); [reflexivity |].
    destruct (props_at d r); reflexivity.
Qed.

(** C7, the failing input.  The two buttons of the toolbar are siblings
    without identifier and without name, and both carry the one class
    [hover:bold].  The resolver asks the engine about [button.hover:bold],
    the class name put into the selector as it stands.  With an engine
    that rejects this selector, [getSelector] throws for either button: it
    returns neither the compound selector nor a positional path, although
    the positional paths of the two buttons exist and differ, and an event
    on either button is dropped by the recorder. *)
Theorem siblings_with_rejected_class_get_no_selector m :
  querySelectorAll Twins.page "button.hover:bold" = Throw m ->
  props_at Twins.page Twins.save = Some (Twins.button_props "Save") /\
  props_at Twins.page Twins.cancel = Some (Twins.button_props "Cancel") /\
  truthy (id (Twins.button_props "Save")) = false /\
  truthy_opt (name (Twins.button_props "Save")) = false /\
  truthy (id (Twins.button_props "Cancel")) = false /\
  truthy_opt (name (Twins.button_props "Cancel")) = false /\
  class_list (Twins.button_props "Save") = ["hover:bold"] /\
  class_list (Twins.button_props "Cancel") = ["hover:bold"] /\
  compound_selector (Twins.button_props "Save") ["hover:bold"] = "button.hover:bold" /\
  compound_selector (Twins.button_props "Cancel") ["hover:bold"] = "button.hover:bold" /\
  getSelector Twins.page Twins.save = Throw m /\
  getSelector Twins.page Twins.cancel = Throw m /\
  positional_path Twins.page Twins.save = "div > button" /\
  positional_path Twins.page Twins.cancel = "div > button:nth-of-type(2)" /\
  (forall st k now, deliver st k (mkEvent Twins.page Twins.save now) = st) /\
  (forall st k now, deliver st k (mkEvent Twins.page Twins.cancel now) = st).
Proof.
  intros Hq.
  assert (Hsave : getSelector Twins.page Twins.save = Throw m).
  { rewrite (getSelector_unidentified Twins.page Twins.save (Twins.button_props "Save")
               eq_refl eq_refl eq_refl).
    change (class_list (Twins.button_props "Save")) with ["hover:bold"].
    change (compound_selector (Twins.button_props "Save") ["hover:bold"])
      with "button.hover:bold".
    rewrite Hq. reflexivity. }
  assert (Hcancel : getSelector Twins.page Twins.cancel = Throw m).
  { rewrite (getSelector_unidentified Twins.page Twins.cancel (Twins.button_props "Cancel")
               eq_refl eq_refl eq_refl).
    change (class_list (Twins.button_props "Cancel")) with ["hover:bold"].
    change (compound_selector (Twins.button_props "Cancel") ["hover:bold"])
      with "button.hover:bold".
    rewrite Hq. reflexivity. }
  do 10 (split; [reflexivity |]).
  split; [exact Hsave |]. split; [exact Hcancel |].
  do 2 (split; [reflexivity |]).
  split; intros st k now.
  - exact (deliver_unresolved Twins.page Twins.save m st k now Hsave).
  - exact (deliver_unresolved Twins.page Twins.cancel m st k now Hcancel).
Qed.

End ResolverClaims.

(** ** The resolver on the sample page *)

Section ResolverExamples.
#[local] Existing Instance Reference.host.
Import Sample.

(** The two list items of the sample page: the engine matches [li.item]
    against both, and each item gets its positional path. *)
Example list_items_resolved :
  querySelectorAll Sample.page "li.item" = Normal [first_item; second_item] /\
  getSelector Sample.page first_item = Normal "ul > li" /\
  getSelector Sample.page second_item = Normal "ul > li:nth-of-type(2)".
Proof. repeat split. Qed.

Lemma siblings_resolve_apart_witness :
  class_rule Sample.page first_item (item_props "one") /\
  class_rule Sample.page second_item (item_props "two") /\
  ambiguity_rule Sample.page first_item (item_props "one") first_item second_item /\
  ambiguity_rule Sample.page second_item (item_props "two") first_item second_item /\
  positional_path Sample.page first_item <> positional_path Sample.page second_item.
Proof.
  apply (siblings_with_same_classes_resolve_apart (H := Reference.host)
           Sample.page [4; 1] 0 1 (item_props "one") (item_props "two"));
    try reflexivity.
  - discriminate.
  - intros _. reflexivity.
Defined.

(** The reference engine rejects [button.hover:bold], as a browser does:
    [:bold] is read as a pseudo-class, and there is none of that name. *)
Lemma siblings_with_rejected_class_witness :
  props_at Twins.page Twins.save = Some (Twins.button_props "Save") /\
  props_at Twins.page Twins.cancel = Some (Twins.button_props "Cancel") /\
  truthy (id (Twins.button_props "Save")) = false /\
  truthy_opt (name (Twins.button_props "Save")) = false /\
  truthy (id (Twins.button_props "Cancel")) = false /\
  truthy_opt (name (Twins.button_props "Cancel")) = false /\
  class_list (Twins.button_props "Save") = ["hover:bold"] /\
  class_list (Twins.button_props "Cancel") = ["hover:bold"] /\
  compound_selector (Twins.button_props "Save") ["hover:bold"] = "button.hover:bold" /\
  compound_selector (Twins.button_props "Cancel") ["hover:bold"] = "button.hover:bold" /\
  getSelector Twins.page Twins.save = Throw "SyntaxError" /\
  getSelector Twins.page Twins.cancel = Throw "SyntaxError" /\
  positional_path Twins.page Twins.save = "div > button" /\
  positional_path Twins.page Twins.cancel = "div > button:nth-of-type(2)" /\
  (forall st k now, deliver st k (mkEvent Twins.page Twins.save now) = st) /\
  (forall st k now, deliver st k (mkEvent Twins.page Twins.cancel now) = st).
Proof.
  apply (siblings_with_rejected_class_get_no_selector (H := Reference.host)).
  reflexivity.
Defined.

(** C10.  There is an element for which [getSelector] returns the empty
    string, whatever the engine: the body of the sample page, which has no
    identifier, no name and no class, and for which the loop adds no
    segment (as it does for the body only).  The reference engine finds no element for the empty string (it
    rejects it), so that a step recorded with it stops the replay. *)
Theorem getSelector_may_return_empty_string :
  exists d r e,
    props_at d r = Some e /\
    truthy (id e) = false /\ truthy_opt (name e) = false /\ class_list e = [] /\
    is_body d r = true /\
    build_path d r [] = [] /\
    (forall d' r', node_at d' r' <> None -> build_path d' r' [] = [] ->
                   is_body d' r' = true) /\
    (forall host : Host, @getSelector host d r = Normal "") /\
    (forall d' element, @querySelector Reference.host d' "" <> Normal (Some element)) /\
    trace (@replay Reference.host d [Step.click "" "body" "" 0])
      = [ShowRunningIndicator;
         Query "";
         ConsoleError "SyntaxError";
         Alert "Error at step 1: SyntaxError";
         RemoveRunningIndicator].
Proof.
  exists Sample.page, the_body, body_props.
  do 6 (split; [reflexivity |]).
  split; [exact build_path_empty |].
  split; [| split; [| reflexivity]].
  - intros host. apply (getSelector_plain_body (H := host) Sample.page the_body body_props);
      reflexivity.
  - intros d' element. discriminate.
Qed.

End ResolverExamples.

(* ===================================================================== *)
(** * The value of a field and what the recorder reads *)
(* ===================================================================== *)

Section ValueFacts.

Lemma nth_error_update_nth {A} (g : A -> A) (l : list A) k i :
  nth_error (update_nth k g l) i =
    if i =? k then option_map g (nth_error l i) else nth_error l i.
Proof.
  revert k i. induction l as [| x l IH]; intros k i.
  - destruct i, k; simpl; try reflexivity. destruct (i =? k); reflexivity.
  - destruct k as [| k], i as [| i]; simpl; try reflexivity. apply IH.
Qed.

Lemma same_attrs_refl a : same_attrs a a.
Proof. repeat split. Qed.

Lemma same_attrs_opt_refl a : same_attrs_opt a a.
Proof. destruct a; simpl; [apply same_attrs_refl | exact I]. Qed.

Lemma update_along_attrs v p e :
  same_attrs (props e) (props (update_along (set_value v) p e)).
Proof. destruct p; repeat split. Qed.

(** Assigning a value somewhere in a tree changes no other property of any
    element, and keeps the shape of the tree. *)
Lemma descend_update_along v p p0 e :
  same_attrs_opt (option_map props (descend p e))
                 (option_map props (descend p (update_along (set_value v) p0 e))).
Proof.
  revert p0 e. induction p as [| i p IH]; intros p0 e.
  - simpl. apply update_along_attrs.
  - destruct p0 as [| k p0]; simpl.
    + apply same_attrs_opt_refl.
    + rewrite nth_error_update_nth.
      destruct (Nat.eqb_spec i k) as [-> | Hne].
      * destruct (nth_error (children e) k) as [c |]; simpl; [apply IH | exact I].
      * apply same_attrs_opt_refl.
Qed.

Lemma with_value_same d r v : same_but_values d (with_value d r v).
Proof. intros q. unfold props_at, node_at, with_value. apply descend_update_along. Qed.

Section Same.
Variables d d' : Document.
Hypothesis Hsame : same_but_values d d'.

Lemma same_tag_at r :
  option_map tagName (props_at d r) = option_map tagName (props_at d' r).
Proof.
  specialize (Hsame r). destruct (props_at d r), (props_at d' r); simpl in *;
    try contradiction; [| reflexivity].
  destruct Hsame as [-> _]. reflexivity.
Qed.

Lemma same_children_tags parent p p' :
  node_at d parent = Some p -> node_at d' parent = Some p' ->
  forall j, option_map (fun s => tagName (props s)) (nth_error (children p) j)
          = option_map (fun s => tagName (props s)) (nth_error (children p') j).
Proof.
  intros Hp Hp' j. pose proof (same_tag_at (j :: parent)) as E.
  unfold props_at in E. rewrite !node_at_child, Hp, Hp' in E.
  destruct (nth_error (children p) j), (nth_error (children p') j); exact E.
Qed.

Lemma same_node_presence r :
  match node_at d r, node_at d' r with
  | Some _, Some _ | None, None => True
  | _, _ => False
  end.
Proof.
  specialize (Hsame r). unfold props_at in Hsame.
  destruct (node_at d r), (node_at d' r); simpl in *; try exact I; exact Hsame.
Qed.

End Same.

Lemma count_previous_ext cs cs' tag i nth :
  (forall j, option_map (fun s => tagName (props s)) (nth_error cs j)
           = option_map (fun s => tagName (props s)) (nth_error cs' j)) ->
  count_previous cs tag i nth = count_previous cs' tag i nth.
Proof.
  intros Hext. revert nth. induction i as [| j IH]; intros nth; simpl; [reflexivity |].
  specialize (Hext j).
  destruct (nth_error cs j), (nth_error cs' j); simpl in Hext; try discriminate;
    [| reflexivity].
  injection Hext as ->. apply IH.
Qed.

Lemma find_index_ext {A} (f : A -> bool) (l l' : list A) k :
  (forall j, option_map f (nth_error l j) = option_map f (nth_error l' j)) ->
  find_index f l k = find_index f l' k.
Proof.
  revert l' k. induction l as [| x l IH]; intros [| x' l'] k Hext; simpl.
  - reflexivity.
  - specialize (Hext 0). discriminate Hext.
  - specialize (Hext 0). discriminate Hext.
  - pose proof (Hext 0) as H0. simpl in H0. injection H0 as ->.
    destruct (f x'); [reflexivity |].
    apply IH. intros j. exact (Hext (S j)).
Qed.

Section SameResolver.
Variables d d' : Document.
Hypothesis Hsame : same_but_values d d'.

Lemma same_body : body d = body d'.
Proof.
  unfold body. rewrite (find_index_ext is_body_tag (children d) (children d') 0);
    [reflexivity |].
  intros j. pose proof (same_children_tags d d' Hsame [] d d' eq_refl eq_refl j) as E.
  unfold is_body_tag.
  destruct (nth_error (children d) j), (nth_error (children d') j); simpl in *;
    try discriminate; [| reflexivity].
  injection E as ->. reflexivity.
Qed.

Lemma same_is_body r : is_body d r = is_body d' r.
Proof. unfold is_body. rewrite same_body. reflexivity. Qed.

Lemma same_nth_of r tag : nth_of d r tag = nth_of d' r tag.
Proof.
  destruct r as [| i parent]; [reflexivity |]. unfold nth_of.
  pose proof (same_node_presence d d' Hsame parent) as Hp.
  destruct (node_at d parent) as [p |] eqn:E, (node_at d' parent) as [p' |] eqn:E';
    try contradiction; [| reflexivity].
  apply count_previous_ext. exact (same_children_tags d d' Hsame parent p p' E E').
Qed.

Lemma same_build_path r path : build_path d r path = build_path d' r path.
Proof.
  revert path. induction r as [| i parent IH]; intros path;
    rewrite !build_path_eq, same_is_body.
  - pose proof (Hsame []) as Hr.
    destruct (props_at d []) as [e |], (props_at d' []) as [e' |]; simpl in Hr;
      try contradiction; [| reflexivity].
    destruct Hr as [-> [-> _]]. rewrite same_nth_of. reflexivity.
  - pose proof (Hsame (i :: parent)) as Hr.
    destruct (props_at d (i :: parent)) as [e |], (props_at d' (i :: parent)) as [e' |];
      simpl in Hr; try contradiction; [| reflexivity].
    destruct Hr as [-> [-> _]]. cbv zeta. rewrite same_nth_of, !IH. reflexivity.
Qed.

Lemma same_positional_path r : positional_path d r = positional_path d' r.
Proof. unfold positional_path. rewrite same_build_path. reflexivity. Qed.

End SameResolver.

(** What an assignment along [p0] does to the properties found along any
    path [p]. *)
Lemma descend_update_props f p p0 e :
  option_map props (descend p (update_along f p0 e)) =
    if ref_eqb p p0 then option_map f (option_map props (descend p e))
    else option_map props (descend p e).
Proof.
  revert p0 e. induction p as [| i p IH]; intros p0 e.
  - destruct p0; reflexivity.
  - destruct p0 as [| k p0]; simpl.
    + reflexivity.
    + rewrite nth_error_update_nth.
      destruct (Nat.eqb_spec i k) as [-> | Hne]; simpl.
      * destruct (nth_error (children e) k) as [c |]; simpl; [apply IH |].
        destruct (ref_eqb p p0); reflexivity.
      * reflexivity.
Qed.

Lemma ref_eqb_rev q r : ref_eqb (rev q) (rev r) = ref_eqb q r.
Proof.
  destruct (ref_eqb q r) eqn:E.
  - apply ref_eqb_eq in E. subst q. apply ref_eqb_eq. reflexivity.
  - destruct (ref_eqb (rev q) (rev r)) eqn:E'; [| reflexivity].
    apply ref_eqb_eq in E'. apply (f_equal (@rev nat)) in E'.
    rewrite !rev_involutive in E'. apply ref_eqb_eq in E'.
    rewrite E' in E. discriminate E.
Qed.

(** After [r.value = v] element [r] has the value [v] and is otherwise as
    it was, and every other element is as it was. *)
Lemma props_at_with_value d r v q :
  props_at (with_value d r v) q =
    if ref_eqb q r then option_map (set_value v) (props_at d q) else props_at d q.
Proof.
  unfold props_at, node_at, with_value.
  rewrite descend_update_props, ref_eqb_rev. reflexivity.
Qed.

Lemma same_but_secret_refl a : same_but_secret a a.
Proof.
  destruct a; simpl; [| exact I]. split; [apply same_attrs_refl | reflexivity].
Qed.

Lemma same_but_secrets_refl d : same_but_secrets d d.
Proof. intros r. apply same_but_secret_refl. Qed.

Lemma same_but_secrets_values d d' : same_but_secrets d d' -> same_but_values d d'.
Proof.
  intros Hd r. specialize (Hd r).
  destruct (props_at d r), (props_at d' r); simpl in *; try exact Hd. exact (proj1 Hd).
Qed.

(** Typing two different values into a password field gives two documents
    that differ in that value only. *)
Lemma secret_typed d r e v1 v2 :
  props_at d r = Some e ->
  holds_secret e = true ->
  same_but_secrets (with_value d r v1) (with_value d r v2).
Proof.
  intros He Hsec q. rewrite !props_at_with_value.
  destruct (ref_eqb q r) eqn:E; [| apply same_but_secret_refl].
  apply ref_eqb_eq in E. subst q. rewrite He. simpl.
  split; [repeat split |]. intros Hno.
  unfold holds_secret, isSecret in *. simpl in Hno. rewrite Hsec in Hno. discriminate Hno.
Qed.

(** The same assignment made in two documents that differ in secrets only
    leaves two such documents. *)
Lemma same_but_secrets_assign d d' r v :
  same_but_secrets d d' ->
  same_but_secrets (with_value d r v) (with_value d' r v).
Proof.
  intros Hd q. rewrite !props_at_with_value. specialize (Hd q).
  destruct (ref_eqb q r); [| exact Hd].
  destruct (props_at d q) as [a |], (props_at d' q) as [b |]; simpl in *; try exact Hd.
  destruct Hd as [[Htag [Hid [Hname [Hcls [Hty [Hch Htx]]]]]] _].
  split; [repeat split; assumption | reflexivity].
Qed.

(** What the handlers read of two elements that agree but for a secret. *)
Lemma same_but_secret_reads t t' :
  same_but_secret (Some t) (Some t') ->
  id t = id t' /\ tagName t = tagName t' /\ click_text t = click_text t' /\
  isSecret t = isSecret t' /\ recorded_text t = recorded_text t' /\
  is_toggle t = is_toggle t' /\ checked t = checked t' /\
  (toLowerCase (tagName t) = "select" -> value t = value t').
Proof.
  intros [[Htag [Hid [Hname [Hcls [Hty [Hch Htx]]]]]] Hval].
  assert (Hsec : isSecret t = isSecret t') by (unfold isSecret; rewrite Hty; reflexivity).
  split; [exact Hid | split; [exact Htag | split; [| split; [exact Hsec | split;
    [| split; [| split; [exact Hch |]]]]]]].
  - unfold click_text. rewrite Htx. reflexivity.
  - unfold recorded_text. rewrite <- Hsec.
    destruct (isSecret t) eqn:E; [reflexivity |].
    apply Hval. unfold holds_secret. rewrite E. reflexivity.
  - unfold is_toggle. rewrite Hty. reflexivity.
  - intros Hsel. apply Hval. unfold holds_secret. rewrite Hsel.
    apply andb_false_r.
Qed.

End ValueFacts.

Section SecretFacts.
Context {H : Host}.

(** No question is put to the engine about an element that has an
    identifier or a name. *)
Lemma identified_same_matches d d' r e :
  props_at d r = Some e ->
  truthy (id e) = true \/ truthy_opt (name e) = true ->
  same_matches d d' r.
Proof.
  intros He Hident e' He' Hid Hname _. rewrite He in He'. injection He' as <-.
  destruct Hident as [E | E]; [rewrite E in Hid | rewrite E in Hname]; discriminate.
Qed.

(** The selector of an element is the same in two documents that differ in
    secrets only, if the engine answers the resolver's question alike. *)
Lemma getSelector_same d d' r :
  same_but_secrets d d' -> same_matches d d' r -> getSelector d r = getSelector d' r.
Proof.
  intros Hd Hm. pose proof (Hd r) as Hr.
  pose proof (same_positional_path d d' (same_but_secrets_values d d' Hd) r) as Hpath.
  destruct (props_at d r) as [e |] eqn:He, (props_at d' r) as [e' |] eqn:He';
    simpl in Hr; try contradiction.
  2: { unfold getSelector. rewrite He, He'. reflexivity. }
  destruct Hr as [[Htag [Hid [Hname [Hcls _]]]] _].
  destruct (truthy (id e)) eqn:Tid.
  - unfold getSelector. rewrite He, He', <- Hid, Tid. reflexivity.
  - destruct (truthy_opt (name e)) eqn:Tn.
    + unfold getSelector. rewrite He, He', <- Hid, Tid, <- Hname, Tn. reflexivity.
    + rewrite (getSelector_unidentified d r e He Tid Tn).
      rewrite (getSelector_unidentified d' r e' He');
        [| rewrite <- Hid; exact Tid | rewrite <- Hname; exact Tn].
      assert (Hcl : class_list e' = class_list e)
        by (unfold class_list; rewrite Hcls; reflexivity).
      assert (Hcs : compound_selector e' (class_list e) = compound_selector e (class_list e))
        by (unfold compound_selector; rewrite Htag; reflexivity).
      rewrite Hcl, Hcs, <- Hpath.
      destruct (class_list e) as [| c cs] eqn:Ecl; [reflexivity |].
      rewrite <- Ecl at 1 2. rewrite <- (Hm e He Tid Tn); [rewrite Ecl; reflexivity |].
      rewrite Ecl. discriminate.
Qed.

Section Alike.
Variables (d d' : Document) (r : Ref) (now : Z).
Hypothesis Hd : same_but_secrets d d'.
Hypothesis Hm : same_matches d d' r.

Lemma handleClick_same st :
  handleClick st (mkEvent d r now) = handleClick st (mkEvent d' r now).
Proof.
  unfold handleClick. cbn [document target Recorder.now].
  rewrite <- (getSelector_same d d' r Hd Hm). pose proof (Hd r) as Hr.
  destruct (props_at d r) as [t |], (props_at d' r) as [t' |]; simpl in Hr;
    try contradiction; [| reflexivity].
  destruct (same_but_secret_reads t t' Hr) as [Hid [Htag [Htx _]]].
  rewrite <- Hid, <- Htag, <- Htx. reflexivity.
Qed.

Lemma handleInput_same st :
  handleInput st (mkEvent d r now) = handleInput st (mkEvent d' r now).
Proof.
  unfold handleInput. cbn [document target Recorder.now].
  rewrite <- (getSelector_same d d' r Hd Hm). pose proof (Hd r) as Hr.
  destruct (props_at d r) as [t |], (props_at d' r) as [t' |]; simpl in Hr;
    try contradiction; [| reflexivity].
  destruct (same_but_secret_reads t t' Hr) as [_ [_ [_ [Hsec [Htext _]]]]].
  rewrite <- Hsec, <- Htext. reflexivity.
Qed.

Lemma handleChange_same st :
  handleChange st (mkEvent d r now) = handleChange st (mkEvent d' r now).
Proof.
  unfold handleChange. cbn [document target Recorder.now].
  rewrite <- (getSelector_same d d' r Hd Hm). pose proof (Hd r) as Hr.
  destruct (props_at d r) as [t |], (props_at d' r) as [t' |]; simpl in Hr;
    try contradiction; [| reflexivity].
  destruct (same_but_secret_reads t t' Hr) as [_ [Htag [_ [_ [_ [Htog [Hch Hval]]]]]]].
  rewrite <- Htag, <- Htog, <- Hch.
  destruct (String.eqb (toLowerCase (tagName t)) "select") eqn:E; [| reflexivity].
  apply String.eqb_eq in E. rewrite (Hval E). reflexivity.
Qed.

End Alike.

Lemma deliver_same st a b :
  same_up_to_secrets a b -> deliver st (fst a) (snd a) = deliver st (fst b) (snd b).
Proof.
  intros [k d d' r now Hd Hm]. destruct k; simpl.
  - rewrite (handleClick_same d d' r now Hd Hm). reflexivity.
  - rewrite (handleInput_same d d' r now Hd Hm). reflexivity.
  - rewrite (handleChange_same d d' r now Hd Hm). reflexivity.
Qed.

Lemma run_same st run1 run2 :
  Forall2 same_up_to_secrets run1 run2 -> run st run1 = run st run2.
Proof.
  intros Hall. revert st. induction Hall as [| a b l1 l2 Hab _ IH]; intros st;
    [reflexivity |].
  unfold run in *. simpl. rewrite (deliver_same st a b Hab). apply IH.
Qed.

End SecretFacts.

Section SecretClaims.
Context {H : Host}.

(** C6.  Whatever the selector engine: an input event on a password field
    that is recorded appends a type step whose text is the redaction marker
    and whose [secret] flag is set, whatever value the field holds.  Typing
    one value or another into a password field that has an identifier or a
    name leaves the recorder in the same state.  And two runs of the
    recorder end in the same state, and so produce the same steps, if they
    deliver the same kinds of events to the same targets at the same times
    and their documents differ at most in the values that password fields
    hold, the engine giving the same answer in both to the query for the
    compound selector of a target without identifier and name. *)
Theorem password_value_is_not_recorded :
  (forall st ev t sel,
      isRecording st = true ->
      props_at (document ev) (target ev) = Some t ->
      isSecret t = true ->
      getSelector (document ev) (target ev) = Normal sel ->
      recordedSteps (handleInput st ev)
        = filter (fun step => negb (Step.is_type_on sel step)) (recordedSteps st)
            ++ [Step.typed sel (Some secret_marker) true (now ev)]) /\
  (forall st d r t v1 v2 now,
      props_at d r = Some t ->
      holds_secret t = true ->
      truthy (id t) = true \/ truthy_opt (name t) = true ->
      handleInput st (mkEvent (with_value d r v1) r now)
      = handleInput st (mkEvent (with_value d r v2) r now)) /\
  (forall st run1 run2,
      Forall2 same_up_to_secrets run1 run2 -> run st run1 = run st run2).
Proof.
  split; [| split].
  - intros st ev t sel Hrec Ht Hsec Hsel.
    rewrite (handleInput_resolved st ev t sel Hrec Ht Hsel). cbn [recordedSteps].
    unfold recorded_text. rewrite Hsec. reflexivity.
  - intros st d r t v1 v2 now Ht Hsec Hident.
    apply handleInput_same; [exact (secret_typed d r t v1 v2 Ht Hsec) |].
    pose proof (props_at_with_value d r v1 r) as Hr.
    assert (Hrr : ref_eqb r r = true) by (apply ref_eqb_eq; reflexivity).
    rewrite Hrr, Ht in Hr. simpl in Hr.
    apply (identified_same_matches _ _ r _ Hr). exact Hident.
  - intros st run1 run2. apply run_same.
Qed.

End SecretClaims.

(** ** The reference engine does not look at values *)

Section ReferenceFacts.
Import Reference.

Lemma forallb_pointwise {A} (f g : A -> bool) (l : list A) :
  (forall x, f x = g x) -> forallb f l = forallb g l.
Proof.
  intros E. induction l as [| x l IH]; simpl; [reflexivity |].
  rewrite E, IH. reflexivity.
Qed.

Lemma refs_under_eq pr cs here :
  refs_under (Node pr cs) here = here :: refs_of_children cs here 0.
Proof.
  simpl. f_equal. generalize 0.
  induction cs as [| c cs IH]; intros k; simpl; [reflexivity |].
  rewrite IH. reflexivity.
Qed.

(** Induction on an element, with the property at hand for each of its
    children. *)
Lemma Element_children_ind (P : Element -> Prop) :
  (forall p cs, Forall P cs -> P (Node p cs)) -> forall e, P e.
Proof.
  intros Hstep. fix IH 1. intros [p cs]. apply Hstep.
  induction cs as [| c cs IHcs]; constructor; [apply IH | exact IHcs].
Qed.

(** Two trees of the same shape have the same elements. *)
Lemma refs_under_same e :
  forall e' here,
    (forall p, same_attrs_opt (option_map props (descend p e))
                              (option_map props (descend p e'))) ->
    refs_under e here = refs_under e' here.
Proof.
  induction e as [p cs IH] using Element_children_ind. intros [p' cs'] here Hsame.
  rewrite !refs_under_eq. f_equal.
  assert (Hkids : forall i,
             match nth_error cs i, nth_error cs' i with
             | Some c, Some c' =>
                 forall q, same_attrs_opt (option_map props (descend q c))
                                          (option_map props (descend q c'))
             | None, None => True
             | _, _ => False
             end).
  { intros i. pose proof (Hsame [i]) as H1. simpl in H1.
    destruct (nth_error cs i) as [c |] eqn:Ec, (nth_error cs' i) as [c' |] eqn:Ec';
      simpl in H1; try contradiction; [| exact I].
    intros q. specialize (Hsame (i :: q)). simpl in Hsame.
    rewrite Ec, Ec' in Hsame. exact Hsame. }
  clear Hsame. generalize 0 as k. revert cs' Hkids.
  induction IH as [| c cs Hc _ IHcs]; intros cs' Hkids k.
  - destruct cs' as [| c' cs']; [reflexivity |].
    specialize (Hkids 0). contradiction.
  - destruct cs' as [| c' cs']; [specialize (Hkids 0); contradiction |].
    simpl. rewrite (Hc c' (k :: here) (Hkids 0)). f_equal.
    apply IHcs. intros i. exact (Hkids (S i)).
Qed.

Lemma all_refs_same d d' : same_but_values d d' -> all_refs d = all_refs d'.
Proof.
  intros Hsame. apply refs_under_same. intros p.
  specialize (Hsame (rev p)). unfold props_at, node_at in Hsame.
  rewrite rev_involutive in Hsame. exact Hsame.
Qed.

Section SameMatch.
Variables d d' : Document.
Hypothesis Hsame : same_but_values d d'.

Lemma same_matches_chain chain r :
  matches_chain d r chain = matches_chain d' r chain.
Proof.
  revert r. induction chain as [| c outer IH]; intros r; simpl; [reflexivity |].
  pose proof (Hsame r) as Hr.
  destruct (props_at d r) as [e |], (props_at d' r) as [e' |]; simpl in Hr;
    try contradiction; [| reflexivity].
  destruct Hr as [Htag [Hid [Hname [Hcls _]]]].
  f_equal.
  - apply forallb_pointwise. intros [tag | ident | token | nm | n]; simpl.
    + rewrite Htag. reflexivity.
    + rewrite Hid. reflexivity.
    + unfold has_class. rewrite Hcls. reflexivity.
    + rewrite Hname. reflexivity.
    + rewrite Htag, (same_nth_of d d' Hsame). reflexivity.
  - destruct outer; [reflexivity |]. destruct r; [reflexivity | apply IH].
Qed.

End SameMatch.

(** The answers of the reference engine are the same in two documents
    that differ in the values of fields only. *)
Lemma reference_engine_ignores_values d d' s :
  same_but_values d d' ->
  @querySelectorAll host d s = @querySelectorAll host d' s.
Proof.
  intros Hsame. simpl. unfold select_all.
  destruct (parse s) as [chain |]; [| reflexivity].
  rewrite (all_refs_same d d' Hsame). f_equal. apply filter_ext. intros q.
  apply same_matches_chain. exact Hsame.
Qed.

End ReferenceFacts.

Section SecretExamples.
#[local] Existing Instance Reference.host.
Import Sample.

Lemma password_value_witness :
  recordedSteps (handleInput Sample.recording (pw_input "hunter2" 7))
    = filter (fun step => negb (Step.is_type_on "#pw" step)) (recordedSteps Sample.recording)
        ++ [Step.typed "#pw" (Some secret_marker) true 7] /\
  handleInput Sample.recording (mkEvent (with_value Sample.page pw "hunter2") pw 7)
    = handleInput Sample.recording (mkEvent (with_value Sample.page pw "letmein") pw 7) /\
  run Sample.recording (secret_run "hunter2") = run Sample.recording (secret_run "letmein").
Proof.
  destruct (password_value_is_not_recorded (H := Reference.host))
    as [Hstep [Hfield Hruns]].
  assert (Hpw : same_but_secrets (with_password "hunter2") (with_password "letmein")).
  { apply (secret_typed Sample.page pw
             (mkProps "INPUT" "pw" (Some "") (ClassString "") (Some "password") (Some "")
                      (Some false) (Some ""))); reflexivity. }
  assert (Hqty : same_but_secrets (with_password_and_quantity "hunter2")
                                  (with_password_and_quantity "letmein")).
  { apply same_but_secrets_assign. exact Hpw. }
  split; [| split].
  - apply (Hstep Sample.recording (pw_input "hunter2" 7)
             (mkProps "INPUT" "pw" (Some "") (ClassString "") (Some "password")
                      (Some "hunter2") (Some false) (Some ""))); reflexivity.
  - apply (Hfield Sample.recording Sample.page pw
             (mkProps "INPUT" "pw" (Some "") (ClassString "") (Some "password") (Some "")
                      (Some false) (Some ""))); [reflexivity | reflexivity |].
    left. reflexivity.
  - apply Hruns. unfold secret_run.
    repeat (constructor; [constructor; [assumption |] |]); [.. | constructor];
      intros e He Hid Hname Hcls; vm_compute in He; injection He as <-;
      try discriminate Hid; try discriminate Hname; reflexivity.
Defined.

(** With the reference engine the condition on the engine holds of
    itself: two runs that deliver the same kinds of events to the same
    targets at the same times, to documents that differ at most in the
    values of password fields, end in the same state. *)
Lemma reference_run_same st run1 run2 :
  Forall2 (fun a b : Kind * Event =>
             fst a = fst b /\ target (snd a) = target (snd b) /\
             now (snd a) = now (snd b) /\
             same_but_secrets (document (snd a)) (document (snd b)))
          run1 run2 ->
  run st run1 = run st run2.
Proof.
  intros Hall. apply (run_same (H := Reference.host)).
  induction Hall as [| [k ev] [k' ev'] l1 l2 Hab _ IH]; constructor; [| exact IH].
  destruct ev as [d r t], ev' as [d' r' t']. simpl in Hab.
  destruct Hab as [<- [<- [<- Hd]]].
  constructor; [exact Hd |]. intros e _ _ _ _.
  apply reference_engine_ignores_values. apply same_but_secrets_values. exact Hd.
Qed.

(** The steps of the two runs of the example. *)
Example secret_runs_recorded :
  recordedSteps (run Sample.recording (secret_run "hunter2"))
  = [Step.typed "#pw" (Some "{{SECRET}}") true 1;
     Step.click "#go" "button" "Go" 2;
     Step.typed Sample.qty_selector (Some "4") false 3;
     Step.click "ul > li" "li" "one" 4;
     Step.toggle "#agree" (Some true) 5].
Proof. reflexivity. Qed.

End SecretExamples.

(* ===================================================================== *)
(** * Further properties of the recorder *)
(* ===================================================================== *)

Import Observed.

Section BufferFacts.
Context {H : Host}.

(** What a delivered event can do to the state: nothing, append a step
    that is no type step, or replace the type steps of one selector by a
    new one at the end. *)
Lemma deliver_cases st k ev :
  deliver st k ev = st \/
  (exists step,
      String.eqb (Step.type step) "type" = false /\
      recorder_made step = true /\
      Step.timestamp step = Some (now ev) /\
      text_within 50 step /\
      deliver st k ev = push st step) \/
  (k = InputEvent /\
   exists sel text secret,
      deliver st k ev =
        push (mkState (isRecording st)
                (filter (fun step => negb (Step.is_type_on sel step)) (recordedSteps st))
                (listeners st) (indicators st))
             (Step.typed sel text secret (now ev))).
Proof.
  assert (Hcut : forall t, String.length (click_text t) <= 50).
  { intros t. unfold click_text. destruct (innerText t) as [s |]; [| simpl; lia].
    assert (Hsub : forall n s, String.length (substring 0 n s) <= n).
    { induction n as [| n IH]; intros [| c s']; simpl; try lia.
      specialize (IH s'). lia. }
    destruct (truthy (substring 0 50 s)); [apply Hsub | simpl; lia]. }
  destruct k; simpl.
  - destruct (click (listeners st)); [| left; reflexivity].
    unfold handleClick. destruct (negb (isRecording st)); [left; reflexivity |].
    destruct (props_at _ _) as [t |]; [| left; reflexivity].
    destruct (String.eqb (id t) "macromate-indicator"); [left; reflexivity |].
    destruct (getSelector _ _) as [sel | m]; [| left; reflexivity].
    right; left.
    exists (Step.click sel (toLowerCase (tagName t)) (click_text t) (now ev)).
    split; [reflexivity | split; [reflexivity | split; [reflexivity | split]]];
      [exact (Hcut t) | reflexivity].
  - destruct (input (listeners st)); [| left; reflexivity].
    unfold handleInput. destruct (negb (isRecording st)); [left; reflexivity |].
    destruct (props_at _ _) as [t |]; [| left; reflexivity].
    destruct (getSelector _ _) as [sel | m]; [| left; reflexivity].
    right; right. split; [reflexivity |]. do 3 eexists. reflexivity.
  - destruct (change (listeners st)); [| left; reflexivity].
    unfold handleChange. destruct (negb (isRecording st)); [left; reflexivity |].
    destruct (props_at _ _) as [t |]; [| left; reflexivity].
    destruct (getSelector _ _) as [sel | m]; [| left; reflexivity].
    destruct (String.eqb (toLowerCase (tagName t)) "select").
    + right; left. exists (Step.select sel (value t) (now ev)).
      split; [reflexivity | split; [reflexivity | split; [reflexivity | split]]];
        [exact I | reflexivity].
    + destruct (is_toggle t); [| left; reflexivity].
      right; left. exists (Step.toggle sel (checked t) (now ev)).
      split; [reflexivity | split; [reflexivity | split; [reflexivity | split]]];
        [exact I | reflexivity].
Qed.

(** A property of buffers that holds for the empty buffer and that every
    delivered event keeps holds after every run of a fresh recording. *)
Lemma run_invariant (P : list Step.t -> Prop) :
  P [] ->
  (forall st k ev, P (recordedSteps st) -> P (recordedSteps (deliver st k ev))) ->
  forall st events, P (recordedSteps (run (startRecording st) events)).
Proof.
  intros Hnil Hstep st events.
  assert (Hgen : forall evs s, P (recordedSteps s) -> P (recordedSteps (run s evs))).
  { induction evs as [| ke evs IH]; intros s Hs; [exact Hs |].
    unfold run in *. simpl. apply IH. apply Hstep. exact Hs. }
  apply Hgen. exact Hnil.
Qed.

Lemma type_targets_snoc_other buffer step :
  String.eqb (Step.type step) "type" = false ->
  type_targets (buffer ++ [step]) = type_targets buffer.
Proof.
  intros Hty. unfold type_targets. rewrite filter_app. simpl. rewrite Hty.
  rewrite List.app_nil_r. reflexivity.
Qed.

Lemma type_targets_filtered sel buffer :
  type_targets (filter (fun step => negb (Step.is_type_on sel step)) buffer)
  = filter (fun o => negb (strict_eq o (Some sel))) (type_targets buffer).
Proof.
  unfold type_targets, Step.is_type_on.
  induction buffer as [| s buffer IH]; [reflexivity |]. simpl.
  destruct (String.eqb (Step.type s) "type") eqn:Hty; simpl.
  - destruct (strict_eq (Step.selector s) (Some sel)); simpl.
    + exact IH.
    + rewrite Hty. simpl. rewrite IH. reflexivity.
  - rewrite Hty. exact IH.
Qed.

Lemma NoDup_snoc {A} (l : list A) (x : A) : NoDup l -> ~ In x l -> NoDup (l ++ [x]).
Proof.
  intros Hl Hx. induction Hl as [| y l Hy Hl IH]; simpl.
  - constructor; [intros [] | constructor].
  - constructor.
    + intros Hin. apply in_app_or in Hin. destruct Hin as [Hin | [-> | []]].
      * exact (Hy Hin).
      * apply Hx. left. reflexivity.
    + apply IH. intros Hin. apply Hx. right. exact Hin.
Qed.

End BufferFacts.

Section BufferInvariants.
Context {H : Host}.

(** X1.  In the buffer of a recording, whatever events have been
    delivered, no two type steps carry the same selector. *)
Theorem one_type_step_per_selector st events :
  NoDup (type_targets (recordedSteps (run (startRecording st) events))).
Proof.
  apply (run_invariant (fun buffer => NoDup (type_targets buffer))).
  - constructor.
  - intros s k ev Hs.
    destruct (deliver_cases s k ev)
      as [-> | [[step [Hty [_ [_ [_ ->]]]]] | [_ [sel [text [secret ->]]]]]].
    + exact Hs.
    + simpl. rewrite (type_targets_snoc_other _ _ Hty). exact Hs.
    + simpl. unfold type_targets at 1. rewrite filter_app, map_app. simpl.
      fold (type_targets (filter (fun step => negb (Step.is_type_on sel step))
                                 (recordedSteps s))).
      rewrite type_targets_filtered. apply NoDup_snoc.
      * apply NoDup_filter. exact Hs.
      * intros Hin. apply filter_In in Hin. destruct Hin as [_ Hin].
        simpl in Hin. rewrite String.eqb_refl in Hin. discriminate Hin.
Qed.

(** X3.  Every step in the buffer of a recording is a click, type or
    select step with a selector and a timestamp; the recorder never writes a
    wait step or a timeout. *)
Theorem recorder_writes_three_kinds st events :
  Forall (fun step => recorder_made step = true)
         (recordedSteps (run (startRecording st) events)).
Proof.
  apply (run_invariant (Forall (fun step => recorder_made step = true))).
  - constructor.
  - intros s k ev Hs.
    destruct (deliver_cases s k ev)
      as [-> | [[step [_ [Hmade [_ [_ ->]]]]] | [_ [sel [text [secret ->]]]]]].
    + exact Hs.
    + simpl. apply Forall_app. split; [exact Hs | repeat constructor; exact Hmade].
    + simpl. apply Forall_app. split; [| repeat constructor].
      apply Forall_forall. intros x Hx. apply filter_In in Hx.
      rewrite Forall_forall in Hs. apply Hs. apply Hx.
Qed.

(** X4.  Every click step in the buffer of a recording carries a text of
    at most 50 characters. *)
Theorem click_text_is_cut_at_50 st events :
  Forall (fun step => Step.type step = "click" -> text_within 50 step)
         (recordedSteps (run (startRecording st) events)).
Proof.
  apply (run_invariant
           (Forall (fun step => Step.type step = "click" -> text_within 50 step))).
  - constructor.
  - intros s k ev Hs.
    destruct (deliver_cases s k ev)
      as [-> | [[step [_ [_ [_ [Htext ->]]]]] | [_ [sel [text [secret ->]]]]]].
    + exact Hs.
    + simpl. apply Forall_app. split; [exact Hs |].
      constructor; [intros _; exact Htext | constructor].
    + simpl. apply Forall_app. split.
      * apply Forall_forall. intros x Hx. apply filter_In in Hx.
        rewrite Forall_forall in Hs. apply Hs. apply Hx.
      * constructor; [discriminate | constructor].
Qed.

(** X5.  Steps that are no type steps are never removed from the buffer
    and never change places: after any further events the click and select
    steps of the buffer are the ones it had, in the same order, followed by
    new ones. *)
Theorem other_steps_are_kept st events :
  exists added,
    filter (fun step => negb (String.eqb (Step.type step) "type"))
           (recordedSteps (run st events))
    = filter (fun step => negb (String.eqb (Step.type step) "type")) (recordedSteps st)
        ++ added.
Proof.
  revert st. induction events as [| ke events IH]; intros st.
  - exists []. rewrite List.app_nil_r. reflexivity.
  - unfold run in *. simpl.
    destruct (IH (deliver st (fst ke) (snd ke))) as [added ->].
    destruct (deliver_cases st (fst ke) (snd ke))
      as [-> | [[step [Hty [_ [_ [_ ->]]]]] | [_ [sel [text [secret ->]]]]]].
    + exists added. reflexivity.
    + simpl. rewrite filter_app. simpl. rewrite Hty. simpl.
      exists (step :: added). rewrite <- app_assoc. reflexivity.
    + simpl. rewrite filter_app. simpl. rewrite List.app_nil_r.
      exists added. f_equal.
      induction (recordedSteps st) as [| x l IHl]; [reflexivity |]. simpl.
      unfold Step.is_type_on at 1.
      destruct (String.eqb (Step.type x) "type") eqn:Hx; simpl.
      * destruct (strict_eq (Step.selector x) (Some sel)); simpl;
          [| rewrite Hx; simpl]; exact IHl.
      * rewrite Hx. simpl. rewrite IHl. reflexivity.
Qed.

End BufferInvariants.

Section ClockFacts.
Context {H : Host}.

Lemma sorted_snoc (l : list Z) (x : Z) :
  StronglySorted Z.le l -> Forall (fun z => (z <= x)%Z) l ->
  StronglySorted Z.le (l ++ [x]).
Proof.
  intros Hs Hall. induction Hs as [| y l Hs IH Hy]; simpl.
  - repeat constructor.
  - inversion Hall as [| ? ? Hyx Hrest]; subst.
    constructor; [exact (IH Hrest) |].
    apply Forall_app. split; [exact Hy | repeat constructor; exact Hyx].
Qed.

Lemma sorted_filter (keep : Step.t -> bool) (buffer : list Step.t) :
  StronglySorted Z.le (map stamp buffer) ->
  StronglySorted Z.le (map stamp (filter keep buffer)).
Proof.
  induction buffer as [| s buffer IH]; simpl; intros Hs; [constructor |].
  apply StronglySorted_inv in Hs. destruct Hs as [Hs Hall].
  destruct (keep s); [| exact (IH Hs)].
  simpl. constructor; [exact (IH Hs) |].
  rewrite Forall_forall in *. intros z Hz. apply Hall.
  apply in_map_iff in Hz. destruct Hz as [x [<- Hx]].
  apply filter_In in Hx. apply in_map. apply Hx.
Qed.

(** The stamps of the buffer stay in order while the clock does not run
    backwards. *)
Lemma run_keeps_order events :
  forall st,
    StronglySorted Z.le (map stamp (recordedSteps st)) ->
    StronglySorted Z.le (map (fun ke => now (snd ke)) events) ->
    Forall (fun z => Forall (fun ke => (z <= now (snd ke))%Z) events)
           (map stamp (recordedSteps st)) ->
    StronglySorted Z.le (map stamp (recordedSteps (run st events))).
Proof.
  induction events as [| ke events IH]; intros st Hs Hev Hbound; [exact Hs |].
  unfold run in *. simpl.
  simpl in Hev. apply StronglySorted_inv in Hev. destruct Hev as [Hev Hlater].
  assert (Hold : Forall (fun z => (z <= now (snd ke))%Z) (map stamp (recordedSteps st))).
  { rewrite Forall_forall in *. intros z Hz. specialize (Hbound z Hz).
    inversion Hbound; assumption. }
  assert (Hrest : Forall (fun z => Forall (fun ke' => (z <= now (snd ke'))%Z) events)
                         (map stamp (recordedSteps st))).
  { rewrite Forall_forall in *. intros z Hz. specialize (Hbound z Hz).
    inversion Hbound; assumption. }
  assert (Hnew : Forall (fun ke' => (now (snd ke) <= now (snd ke'))%Z) events).
  { rewrite Forall_forall in *. intros ke' Hin. apply Hlater.
    apply (in_map (fun ke => now (snd ke))). exact Hin. }
  assert (Hsub : forall keep,
             Forall (fun z => (z <= now (snd ke))%Z)
                    (map stamp (filter keep (recordedSteps st))) /\
             Forall (fun z => Forall (fun ke' => (z <= now (snd ke'))%Z) events)
                    (map stamp (filter keep (recordedSteps st)))).
  { intros keep. split; rewrite Forall_forall in *; intros z Hz;
      apply in_map_iff in Hz; destruct Hz as [x [<- Hx]]; apply filter_In in Hx;
      [apply Hold | apply Hrest]; apply in_map; apply Hx. }
  apply IH; [| exact Hev |];
    destruct (deliver_cases st (fst ke) (snd ke))
      as [-> | [[step [_ [_ [Hstamp [_ ->]]]]] | [_ [sel [text [secret ->]]]]]];
    simpl; try assumption.
  - rewrite map_app. simpl. unfold stamp at 2. rewrite Hstamp.
    apply sorted_snoc; assumption.
  - rewrite map_app. simpl. unfold stamp at 2. simpl.
    apply sorted_snoc; [apply sorted_filter; exact Hs | apply Hsub].
  - rewrite map_app. apply Forall_app. split; [exact Hrest |].
    simpl. unfold stamp. rewrite Hstamp. repeat constructor. exact Hnew.
  - rewrite map_app. apply Forall_app. split; [apply Hsub |].
    simpl. repeat constructor. exact Hnew.
Qed.

End ClockFacts.

Section SessionProperties.
Context {H : Host}.

(** X2.  If the clock does not run backwards from one delivered event to
    the next, the timestamps of the buffer of a recording are in
    non-decreasing order. *)
Theorem timestamps_are_ordered st events :
  StronglySorted Z.le (map (fun ke => now (snd ke)) events) ->
  StronglySorted Z.le (map stamp (recordedSteps (run (startRecording st) events))).
Proof.
  intros Hev. apply run_keeps_order; [constructor | exact Hev | constructor].
Qed.

(** X6.  Starting a recording [n + 1] times in a row and stopping it once
    leaves [n] more indicators in the page than there were, with recording
    off and no listener installed: every start but one leaves its indicator
    behind. *)
Theorem repeated_start_leaves_indicators n st :
  indicators (snd (stopRecording (Nat.iter (S n) startRecording st)))
    = indicators st + n /\
  isRecording (snd (stopRecording (Nat.iter (S n) startRecording st))) = false /\
  listeners (snd (stopRecording (Nat.iter (S n) startRecording st)))
    = mkListeners false false false.
Proof.
  split; [| split; reflexivity].
  assert (Hit : forall k, indicators (Nat.iter k startRecording st) = indicators st + k).
  { induction k as [| k IH]; simpl; [lia | rewrite IH; lia]. }
  simpl. rewrite Hit. reflexivity.
Qed.

End SessionProperties.

(* ===================================================================== *)
(** * Further properties of the resolver *)
(* ===================================================================== *)

Section ResolverProperties.
Context {H : Host}.

Lemma count_previous_bounds siblings tag i nth :
  nth <= count_previous siblings tag i nth /\
  count_previous siblings tag i nth <= nth + i.
Proof.
  revert nth. induction i as [| j IH]; intros nth; simpl; [lia |].
  destruct (nth_error siblings j) as [s |]; [| lia].
  destruct (String.eqb (tagName (props s)) tag);
    [specialize (IH (nth + 1)) | specialize (IH nth)]; lia.
Qed.

(** X10.  The ordinal the path builder computes for the child at index
    [i] lies between 1 and [i + 1], whatever the tag; the root and every
    first child get ordinal 1 and with it no [:nth-of-type] suffix. *)
Theorem ordinal_bounds d i parent tag :
  1 <= nth_of d (i :: parent) tag /\
  nth_of d (i :: parent) tag <= i + 1 /\
  nth_suffix (nth_of d (0 :: parent) tag) = "" /\
  nth_suffix (nth_of d [] tag) = "".
Proof.
  assert (Hb : forall k, 1 <= nth_of d (k :: parent) tag <= k + 1).
  { intros k. unfold nth_of. destruct (node_at d parent) as [p |]; [| lia].
    pose proof (count_previous_bounds (children p) tag k 1). lia. }
  split; [apply Hb | split; [apply Hb |]].
  split; [| reflexivity].
  unfold nth_suffix. destruct (Nat.ltb_spec 1 (nth_of d (0 :: parent) tag)) as [Hlt |];
    [| reflexivity].
  pose proof (Hb 0). lia.
Qed.

(** The positional path of an element whose parent has an identifier. *)
Lemma path_anchored_at_parent d i parent t p :
  props_at d (i :: parent) = Some t ->
  truthy (id t) = false ->
  props_at d parent = Some p ->
  truthy (id p) = true ->
  is_body d (i :: parent) = false ->
  is_body d parent = false ->
  positional_path d (i :: parent) =
    toLowerCase (tagName p) +++ "#" +++ id p +++ " > "
      +++ toLowerCase (tagName t) +++ nth_suffix (nth_of d (i :: parent) (tagName t)).
Proof.
  intros Ht Hid Hp Hpid Hb Hbp. unfold positional_path.
  rewrite (build_path_child d i parent t Ht Hid Hb).
  assert (Hlev : PathSpec.levels d parent = [parent]).
  { unfold PathSpec.levels.
    destruct parent as [| j q]; cbn [PathSpec.self_and_ancestors PathSpec.before_first];
      rewrite Hbp; cbn [PathSpec.through_first]; unfold PathSpec.has_identifier;
      rewrite Hp, Hpid; reflexivity. }
  rewrite Hlev. cbn [map rev app]. unfold PathSpec.segment. rewrite Hp, Hpid.
  unfold join. simpl String.concat. rewrite !append_assoc. reflexivity.
Qed.

(** X8.  While recording, a click on a child of an element that has an
    identifier, the child having no identifier, name or class of its own, is
    recorded with a selector of two segments anchored at the parent.  The
    guard of the click handler looks at the identifier of the target only:
    this holds also when the parent is the recorder's own indicator. *)
Theorem click_below_identified_parent_is_recorded st d i parent now t p :
  isRecording st = true ->
  props_at d (i :: parent) = Some t ->
  truthy (id t) = false ->
  truthy_opt (name t) = false ->
  class_list t = [] ->
  props_at d parent = Some p ->
  truthy (id p) = true ->
  is_body d (i :: parent) = false ->
  is_body d parent = false ->
  recordedSteps (handleClick st (mkEvent d (i :: parent) now)) =
    recordedSteps st ++
    [Step.click
       (toLowerCase (tagName p) +++ "#" +++ id p +++ " > "
          +++ toLowerCase (tagName t) +++ nth_suffix (nth_of d (i :: parent) (tagName t)))
       (toLowerCase (tagName t)) (click_text t) now].
Proof.
  intros Hrec Ht Hid Hname Hcls Hp Hpid Hb Hbp.
  assert (Hsel : getSelector d (i :: parent)
                 = Normal (toLowerCase (tagName p) +++ "#" +++ id p +++ " > "
                             +++ toLowerCase (tagName t)
                             +++ nth_suffix (nth_of d (i :: parent) (tagName t)))).
  { rewrite (getSelector_unidentified d (i :: parent) t Ht Hid Hname), Hcls.
    rewrite (path_anchored_at_parent d i parent t p Ht Hid Hp Hpid Hb Hbp).
    reflexivity. }
  assert (Hnot : id t <> "macromate-indicator").
  { intros E. rewrite E in Hid. discriminate Hid. }
  rewrite (handleClick_resolved st (mkEvent d (i :: parent) now) t _ Hrec Ht Hnot Hsel).
  reflexivity.
Qed.

(** X9.  [getSelector] throws in two cases only: its argument is no
    element, or the element has no identifier and no name, has class tokens,
    and the engine rejects the compound selector built from them.  An event
    whose target cannot be resolved leaves the recorder as it was: nothing
    is appended. *)
Theorem unresolvable_target_is_dropped d r m :
  getSelector d r = Throw m ->
  ((props_at d r = None /\ m = "TypeError") \/
   (exists e,
       props_at d r = Some e /\
       truthy (id e) = false /\ truthy_opt (name e) = false /\
       class_list e <> [] /\
       querySelectorAll d (compound_selector e (class_list e)) = Throw m)) /\
  (forall st k now, deliver st k (mkEvent d r now) = st).
Proof.
  intros Hthrow. split.
  - destruct (props_at d r) as [e |] eqn:He.
    + right. exists e. split; [reflexivity |].
      unfold getSelector in Hthrow. rewrite He in Hthrow.
      destruct (truthy (id e)) eqn:Hid; [discriminate Hthrow |].
      destruct (truthy_opt (name e)) eqn:Hname; [discriminate Hthrow |].
      split; [reflexivity | split; [reflexivity |]].
      unfold class_list. destruct (className e) as [cn |]; [| discriminate Hthrow].
      destruct (truthy cn); [| discriminate Hthrow].
      destruct (class_tokens cn) as [| c cs] eqn:Ecs; [discriminate Hthrow |].
      split; [discriminate |].
      simpl in Hthrow.
      destruct (querySelectorAll d (compound_selector e (c :: cs))) as [found | m'];
        [destruct (length found =? 1); discriminate Hthrow |].
      injection Hthrow as ->. reflexivity.
    + left. split; [reflexivity |].
      unfold getSelector in Hthrow. rewrite He in Hthrow.
      injection Hthrow as <-. reflexivity.
  - intros st k now. destruct k; simpl.
    + destruct (click (listeners st)); [| reflexivity].
      unfold handleClick. simpl. rewrite Hthrow.
      destruct (negb (isRecording st)); [reflexivity |].
      destruct (props_at d r) as [t |]; [| reflexivity].
      destruct (String.eqb (id t) "macromate-indicator"); reflexivity.
    + destruct (input (listeners st)); [| reflexivity].
      unfold handleInput. simpl. rewrite Hthrow.
      destruct (negb (isRecording st)); [reflexivity |].
      destruct (props_at d r); reflexivity.
    + destruct (change (listeners st)); [| reflexivity].
      unfold handleChange. simpl. rewrite Hthrow.
      destruct (negb (isRecording st)); [reflexivity |].
      destruct (props_at d r); reflexivity.
Qed.

End ResolverProperties.

Section ResolverPropertyExamples.
#[local] Existing Instance Reference.host.

Lemma timestamps_are_ordered_witness :
  StronglySorted Z.le
    (map stamp
       (recordedSteps
          (run (startRecording Recorder.initial)
               [(ClickEvent, mkEvent Sample.page Sample.go 1);
                (InputEvent, Sample.qty_input "4" 2);
                (InputEvent, Sample.qty_input "42" 2);
                (ChangeEvent, Sample.agree_event 5)]))).
Proof.
  apply (timestamps_are_ordered (H := Reference.host)).
  simpl. repeat constructor; lia.
Defined.

Lemma click_on_indicator_badge_witness :
  recordedSteps (handleClick Sample.recording (mkEvent Marked.page Marked.badge 9)) =
    recordedSteps Sample.recording ++
    [Step.click
       (toLowerCase "DIV" +++ "#" +++ "macromate-indicator" +++ " > "
          +++ toLowerCase "DIV" +++ nth_suffix (nth_of Marked.page Marked.badge "DIV"))
       (toLowerCase "DIV") (click_text Marked.badge_props) 9].
Proof.
  apply (click_below_identified_parent_is_recorded (H := Reference.host)
           Sample.recording Marked.page 0 Marked.indicator 9
           Marked.badge_props Marked.indicator_props); reflexivity.
Defined.

(** The click on the badge of the indicator, as it is recorded. *)
Example click_on_indicator_badge :
  recordedSteps (handleClick Sample.recording (mkEvent Marked.page Marked.badge 9))
    = [Step.click "div#macromate-indicator > div" "div" "Recording..." 9] /\
  recordedSteps (handleClick Sample.recording (mkEvent Marked.page Marked.indicator 9))
    = [].
Proof. split; reflexivity. Qed.

Lemma unresolvable_target_witness :
  ((props_at Marked.page Marked.save = None /\ "SyntaxError" = "TypeError") \/
   (exists e,
       props_at Marked.page Marked.save = Some e /\
       truthy (id e) = false /\ truthy_opt (name e) = false /\
       class_list e <> [] /\
       querySelectorAll Marked.page (compound_selector e (class_list e))
         = Throw "SyntaxError")) /\
  (forall st k now, deliver st k (mkEvent Marked.page Marked.save now) = st).
Proof.
  apply (unresolvable_target_is_dropped (H := Reference.host) Marked.page Marked.save).
  reflexivity.
Defined.

(** The selector the resolver asks the engine about for the button with
    class [hover:bold]. *)
Example unresolvable_selector :
  compound_selector Marked.save_props (class_list Marked.save_props) = "button.hover:bold" /\
  getSelector Marked.page Marked.save = Throw "SyntaxError".
Proof. split; reflexivity. Qed.

End ResolverPropertyExamples.

(* ===================================================================== *)
(** * Further properties of the replay executor *)
(* ===================================================================== *)

Section TurnFacts.
Context {H : Host}.

Lemma queried_app a b : queried (a ++ b) = queried a ++ queried b.
Proof.
  induction a as [| x a IH]; [reflexivity |].
  destruct x; simpl; rewrite IH; reflexivity.
Qed.

Lemma queried_effects effects :
  Forall (fun a => is_effect a = true) effects -> queried effects = [].
Proof.
  induction 1 as [| x l Hx _ IH]; [reflexivity |].
  destruct x; simpl in *; try discriminate Hx; exact IH.
Qed.

(** One turn of the loop on a step whose selector finds an element: it
    does not throw, and adds the lookup and effects on the page. *)
Lemma turn_found step w element :
  querySelector (page w) (to_string (Step.selector step)) = Normal (Some element) ->
  exists effects w',
    Forall (fun a => is_effect a = true) effects /\
    turn step w = (Normal tt, w') /\
    trace w' = trace w ++ Query (to_string (Step.selector step)) :: effects.
Proof.
  intros Hq. unfold turn, executeStep, bind, lookup, wait, perform. rewrite Hq. simpl.
  destruct (String.eqb (Step.type step) "click");
    [| destruct (String.eqb (Step.type step) "type");
       [| destruct (String.eqb (Step.type step) "select");
          [| destruct (String.eqb (Step.type step) "wait")]]];
    simpl; do 2 eexists; (split; [| split; [reflexivity |]]);
    try (repeat rewrite <- app_assoc; simpl; reflexivity);
    repeat constructor.
Qed.

(** One turn on a step whose lookup fails: it throws after the lookup. *)
Lemma turn_failed step w :
  (forall element,
      querySelector (page w) (to_string (Step.selector step)) <> Normal (Some element)) ->
  exists m,
    turn step w =
      (Throw m, mkWorld (page w) (trace w ++ [Query (to_string (Step.selector step))])).
Proof.
  intros Hq. unfold turn, executeStep, bind, lookup.
  destruct (querySelector (page w) (to_string (Step.selector step))) as [[el |] | m].
  - exfalso. exact (Hq el eq_refl).
  - eexists. reflexivity.
  - eexists. reflexivity.
Qed.

Lemma found_or_not step w :
  (exists element,
      querySelector (page w) (to_string (Step.selector step)) = Normal (Some element)) \/
  (forall element,
      querySelector (page w) (to_string (Step.selector step)) <> Normal (Some element)).
Proof.
  destruct (querySelector (page w) (to_string (Step.selector step))) as [[el |] | m].
  - left. exists el. reflexivity.
  - right. discriminate.
  - right. discriminate.
Qed.

(** The steps that have been performed have left their lookups, in order,
    and effects in the trace. *)
Lemma performed_trace steps :
  forall w w',
    performed steps w = Some w' ->
    exists mid,
      Forall (fun a => is_step_action a = true) mid /\
      trace w' = trace w ++ mid /\
      queried mid = map (fun step => to_string (Step.selector step)) steps.
Proof.
  induction steps as [| step steps IH]; intros w w' Hp; simpl in Hp.
  - injection Hp as <-. exists []. rewrite List.app_nil_r. repeat split. constructor.
  - destruct (found_or_not step w) as [[el Hq] | Hq].
    + destruct (turn_found step w el Hq) as [effects [w1 [Heff [Hturn Htr]]]].
      rewrite Hturn in Hp. destruct (IH w1 w' Hp) as [mid [Hmid [Htr' Hqs]]].
      exists (Query (to_string (Step.selector step)) :: effects ++ mid).
      split; [| split].
      * constructor; [reflexivity |]. apply Forall_app. split; [| exact Hmid].
        rewrite Forall_forall in *. intros a Ha. specialize (Heff a Ha).
        destruct a; simpl in *; try discriminate Heff; reflexivity.
      * rewrite Htr', Htr. rewrite <- app_assoc. reflexivity.
      * simpl. rewrite queried_app, (queried_effects effects Heff), Hqs. reflexivity.
    + destruct (turn_failed step w Hq) as [m Hturn]. rewrite Hturn in Hp. discriminate Hp.
Qed.

(** The loop either performs all its steps, or performs the steps before
    the first one whose lookup fails, looks that one up and reports it. *)
Lemma run_from_outcome steps :
  forall i w,
    (exists w', performed steps w = Some w' /\ run_from steps i w = (Normal tt, w')) \/
    (exists pre step post w' m,
        steps = pre ++ step :: post /\
        performed pre w = Some w' /\
        trace (snd (run_from steps i w)) =
          trace w' ++ [Query (to_string (Step.selector step));
                       ConsoleError m;
                       Alert ("Error at step " +++ number_to_string (i + length pre + 1)
                                +++ ": " +++ m)]).
Proof.
  induction steps as [| step steps IH]; intros i w.
  - left. exists w. split; reflexivity.
  - destruct (found_or_not step w) as [[el Hq] | Hq].
    + destruct (turn_found step w el Hq) as [effects [w1 [_ [Hturn _]]]].
      assert (Hrun : run_from (step :: steps) i w = run_from steps (S i) w1).
      { simpl. unfold turn in Hturn. rewrite Hturn. reflexivity. }
      destruct (IH (S i) w1) as [[w' [Hp Hr]] | [pre [s [post [w' [m [-> [Hp Htr]]]]]]]].
      * left. exists w'. split; [simpl; rewrite Hturn; exact Hp |].
        rewrite Hrun. exact Hr.
      * right. exists (step :: pre), s, post, w', m.
        split; [reflexivity | split; [simpl; rewrite Hturn; exact Hp |]].
        change ((step :: pre) ++ s :: post) with (step :: (pre ++ s :: post)).
        rewrite Hrun, Htr. simpl length.
        replace (S i + length pre + 1) with (i + S (length pre) + 1) by lia.
        reflexivity.
    + destruct (turn_failed step w Hq) as [m Hturn].
      right. exists [], step, steps, w, m.
      split; [reflexivity | split; [reflexivity |]].
      unfold turn in Hturn. cbn [run_from List.app]. rewrite Hturn.
      unfold bind, perform. cbn [snd trace page length].
      rewrite <- !app_assoc, Nat.add_0_r. reflexivity.
Qed.

End TurnFacts.

Section ReplayOutcome.
Context {H : Host}.

Lemma run_from_normal steps : forall i w, fst (run_from steps i w) = Normal tt.
Proof.
  induction steps as [| step steps IH]; intros i w; [reflexivity |].
  simpl. destruct ((executeStep step;; wait 500) w) as [[[] | m] w1]; [apply IH | reflexivity].
Qed.

(** A replay either performs every step, or performs the steps before the
    first failing lookup, performs that lookup and reports it. *)
Lemma replay_outcome d steps :
  (exists mid,
      Forall (fun a => is_step_action a = true) mid /\
      queried mid = map (fun step => to_string (Step.selector step)) steps /\
      trace (replay d steps) = ShowRunningIndicator :: mid ++ [RemoveRunningIndicator]) \/
  (exists pre step post mid m,
      steps = pre ++ step :: post /\
      Forall (fun a => is_step_action a = true) mid /\
      queried mid = map (fun step => to_string (Step.selector step)) (pre ++ [step]) /\
      trace (replay d steps) =
        ShowRunningIndicator :: mid ++
          [ConsoleError m;
           Alert ("Error at step " +++ number_to_string (length pre + 1) +++ ": " +++ m);
           RemoveRunningIndicator]).
Proof.
  rewrite runMacro_unfold. cbv zeta.
  set (w0 := mkWorld (respond d ShowRunningIndicator) [ShowRunningIndicator]).
  pose proof (run_from_normal steps 0 w0) as Hn. rewrite Hn. cbn [trace].
  destruct (run_from_outcome steps 0 w0)
    as [[w' [Hp Hr]] | [pre [step [post [w' [m [-> [Hp Htr]]]]]]]].
  - left. destruct (performed_trace steps w0 w' Hp) as [mid [Hmid [Htr Hqs]]].
    exists mid. split; [exact Hmid | split; [exact Hqs |]].
    rewrite Hr. cbn [snd]. rewrite Htr. reflexivity.
  - right. destruct (performed_trace pre w0 w' Hp) as [mid [Hmid [Htr' Hqs]]].
    exists pre, step, post, (mid ++ [Query (to_string (Step.selector step))]), m.
    split; [reflexivity | split; [| split]].
    + apply Forall_app. split; [exact Hmid | repeat constructor].
    + rewrite queried_app, Hqs, map_app. reflexivity.
    + rewrite Htr, Htr'. cbn [trace w0 List.app Nat.add].
      rewrite <- !app_assoc. reflexivity.
Qed.

Lemma firstn_map_prefix {A B} (f : A -> B) (pre : list A) (x : A) (post : list A) :
  firstn (length pre + 1) (map f (pre ++ x :: post)) = map f (pre ++ [x]).
Proof.
  induction pre as [| y pre IH]; simpl; [reflexivity | rewrite IH; reflexivity].
Qed.

End ReplayOutcome.

Section ReplayProperties.
Context {H : Host}.

(** X12.  The trace of every replay starts with the running indicator
    being shown and ends with its removal.  In between there are lookups and
    effects of steps only, or lookups and effects followed by one error
    report, made of the console line and the alert naming a step of the macro;
    nothing but the removal of the indicator comes after the alert. *)
Theorem replay_reports_at_most_once d steps :
  exists mid,
    Forall (fun a => is_step_action a = true) mid /\
    (trace (replay d steps) = ShowRunningIndicator :: mid ++ [RemoveRunningIndicator] \/
     exists m j,
       1 <= j /\ j <= length steps /\
       trace (replay d steps) =
         ShowRunningIndicator :: mid ++
           [ConsoleError m;
            Alert ("Error at step " +++ number_to_string j +++ ": " +++ m);
            RemoveRunningIndicator]).
Proof.
  destruct (replay_outcome d steps)
    as [[mid [Hmid [_ Htr]]] | [pre [step [post [mid [m [-> [Hmid [_ Htr]]]]]]]]].
  - exists mid. split; [exact Hmid | left; exact Htr].
  - exists mid. split; [exact Hmid | right].
    exists m, (length pre + 1). split; [lia | split; [| exact Htr]].
    rewrite length_app. simpl. lia.
Qed.

(** X13.  The selectors a replay looks up are, in order, the selectors of
    an initial part of the macro: steps are taken in array order, each at
    most once, and none is skipped. *)
Theorem lookups_follow_the_macro d steps :
  exists n,
    n <= length steps /\
    queried (trace (replay d steps))
      = firstn n (map (fun step => to_string (Step.selector step)) steps).
Proof.
  assert (Htail : forall mid tail,
             Forall (fun a => is_step_action a = false) tail ->
             queried (ShowRunningIndicator :: mid ++ tail) = queried mid).
  { intros mid tail Ht. simpl. rewrite queried_app.
    replace (queried tail) with (@nil string); [apply List.app_nil_r |].
    induction Ht as [| a l Ha _ IH]; [reflexivity |].
    destruct a; simpl in *; try discriminate Ha; exact IH. }
  destruct (replay_outcome d steps)
    as [[mid [_ [Hqs ->]]] | [pre [step [post [mid [m [-> [_ [Hqs ->]]]]]]]]].
  - exists (length steps). split; [apply Nat.le_refl |].
    rewrite Htail by (repeat constructor). rewrite Hqs.
    rewrite <- (length_map (fun step => to_string (Step.selector step)) steps).
    rewrite firstn_all. reflexivity.
  - exists (length pre + 1). split; [rewrite length_app; simpl; lia |].
    rewrite Htail by (repeat constructor). rewrite Hqs, firstn_map_prefix. reflexivity.
Qed.

(** X17.  Macros compose: when the steps of [first] have all been
    performed, the loop on [first ++ second] carries on with [second] from
    the world they have left, and counts its steps from [length first] on, so
    that an error in [second] is reported with its index in the whole
    macro. *)
Theorem macro_concatenation first second i w w' :
  performed first w = Some w' ->
  performed (first ++ second) w = performed second w' /\
  run_from (first ++ second) i w = run_from second (i + length first) w'.
Proof.
  intros Hp. split; [| exact (run_from_performed first second i w w' Hp)].
  revert w Hp. induction first as [| step first IH]; intros w Hp; simpl in *.
  - injection Hp as <-. reflexivity.
  - destruct (turn step w) as [[[] | m] w1]; [apply IH; exact Hp | discriminate Hp].
Qed.

End ReplayProperties.

(* ===================================================================== *)
(** * Recording and replaying together *)
(* ===================================================================== *)

Section RoundTrip.
Context {H : Host}.



End RoundTrip.

(* ===================================================================== *)
(** * The highlight *)
(* ===================================================================== *)

Section HighlightProperties.
Context {H : Host}.
Import Highlight.



(** X18.  A highlight that is left alone is undone by its timer: the
    callback writes back the outline and background the element had when the
    highlight began, whatever they have become in the meantime.  A second
    highlight of the same element that begins before the first timer has
    fired reads the highlight colours as the original ones, so that after
    both timers have fired, in the order they were armed, the element keeps
    the highlight colours. *)
Theorem overlapping_highlights_stay style :
  let first := highlightElementBriefly style in
  let second := highlightElementBriefly (fst first) in
  fst first = highlighted /\
  delay (snd first) = 1000%Z /\
  (forall current, callback (snd first) current = style) /\
  callback (snd second) (callback (snd first) (fst second)) = highlighted.
Proof.
  destruct style as [o b]. cbv zeta.
  split; [reflexivity | split; [reflexivity | split; [| reflexivity]]].
  intros current. reflexivity.
Qed.


End HighlightProperties.

(** ** The further properties on the sample page *)

Section FurtherExamples.
#[local] Existing Instance Reference.host.
Import Fixtures.

(** Recording a password and replaying the step types the marker. *)
Example recorded_password_replays_marker :
  trace (replay Sample.page
           (recordedSteps (handleInput Sample.recording (Sample.pw_input "hunter2" 7))))
    = [ShowRunningIndicator;
       Query "#pw"; ScrollIntoView Sample.pw; Sleep 200; Highlight Sample.pw;
       Focus Sample.pw; SetValue Sample.pw "{{SECRET}}";
       DispatchEvent Sample.pw "input"; DispatchEvent Sample.pw "change"; Sleep 500;
       RemoveRunningIndicator].
Proof. reflexivity. Qed.


Lemma macro_concatenation_witness :
  performed ([click_go] ++ [click_missing]) fresh
    = performed [click_missing]
        (mkWorld Sample.page
           [Query "#go"; ScrollIntoView Sample.go; Sleep 200; Highlight Sample.go;
            Click Sample.go; Sleep 500]) /\
  run_from ([click_go] ++ [click_missing]) 0 fresh
    = run_from [click_missing] (0 + length [click_go])
        (mkWorld Sample.page
           [Query "#go"; ScrollIntoView Sample.go; Sleep 200; Highlight Sample.go;
            Click Sample.go; Sleep 500]).
Proof.
  apply (macro_concatenation (H := Reference.host) [click_go] [click_missing] 0 fresh).
  reflexivity.
Defined.

(** The error of the second macro is reported as step 2 of the whole. *)
Example concatenated_macro_error :
  trace (snd (run_from ([click_go] ++ [click_missing]) 0 fresh))
    = [Query "#go"; ScrollIntoView Sample.go; Sleep 200; Highlight Sample.go;
       Click Sample.go; Sleep 500;
       Query "#missing"; ConsoleError "Element not found: #missing";
       Alert "Error at step 2: Element not found: #missing"].
Proof. reflexivity. Qed.


End FurtherExamples.
